(** * rand: seeding, drawing and persisting OpenSSL RAND state

    A shallow embedding of [rand.c].  The program talks to the operating
    system (access, lstat, unlink, opendir, mkdir), to the C library
    (getopt_long, strtol, printf) and to OpenSSL (RAND_load_file,
    RAND_bytes, RAND_write_file).  The functions of [rand.c] are written
    in a small state-and-exit monad over an abstract [Platform]; every
    platform call is recorded, with its result, in a chronological log.

    Integer model (LP64, as on the Linux systems the paths of the program
    belong to): [int] is 32 bits, [long], [size_t] and [off_t] are 64 bits;
    conversions between them are written out. *)

From Stdlib Require Import ZArith List String Ascii Bool Lia.
From Stdlib Require Import Strings.Byte.
Import ListNotations.
Open Scope string_scope.
Open Scope list_scope.
Open Scope Z_scope.

(** ** C integer conversions *)

Definition INT_MAX : Z := 2147483647.
Definition LONG_MAX : Z := 9223372036854775807.
Definition LONG_MIN : Z := -9223372036854775808.

(** Conversion to [int]: reduction modulo 2^32 into [-2^31, 2^31). *)
Definition to_int (z : Z) : Z := (z + 2 ^ 31) mod 2 ^ 32 - 2 ^ 31.

(** Conversion to [size_t] / [unsigned long]: reduction modulo 2^64. *)
Definition to_size_t (z : Z) : Z := z mod 2 ^ 64.

(** ** Constants of rand.c *)

Definition SEED_FILE : string := "/var/lib/rand/rand.seed".
Definition ENTROPY_SOURCE : string := "/dev/random".
Definition ENTROPY_SIZE : Z := 32.
Definition MAX_BYTES : Z := 1024.

Definition EXIT_SUCCESS : Z := 0.
Definition EXIT_FAILURE : Z := 1.

(** Constants of the system headers. *)
Definition R_OK : Z := 4.
Definition W_OK : Z := 2.
Definition S_IFMT : Z := 61440.   (* 0170000 *)
Definition S_IFREG : Z := 32768.  (* 0100000 *)
Definition S_IFDIR : Z := 16384.  (* 0040000 *)
Definition S_IFCHR : Z := 8192.   (* 0020000 *)
Definition S_IRWXU : Z := 448.    (* 0700 *)
Definition S_IRGRP : Z := 32.     (* 0040 *)
Definition S_IXGRP : Z := 8.      (* 0010 *)
Definition ENOENT : Z := 2.
Definition ENOTDIR : Z := 20.

Definition S_ISREG (m : Z) : bool := Z.land m S_IFMT =? S_IFREG.
Definition S_ISDIR (m : Z) : bool := Z.land m S_IFMT =? S_IFDIR.
Definition S_ISCHR (m : Z) : bool := Z.land m S_IFMT =? S_IFCHR.

(** The two fields of [struct stat] the program reads. *)
Record stat := mk_stat { st_mode : Z; st_size : Z }.

(** [args_t] and its zero initialiser [{ 0, }]. *)
Record args_t := mk_args { hex : bool; verbose : bool; bytes : Z }.
Definition args0 : args_t := mk_args false false 0.

(** ** Text helpers: characters, decimal and hexadecimal printing *)

Definition nl : string := String (ascii_of_nat 10) EmptyString.

Definition digit_char (d : Z) : ascii :=
  nth (Z.to_nat d) (list_ascii_of_string "0123456789abcdef") "0"%char.

(** Digits of a non-negative number in [base], most significant first. *)
Fixpoint digits_fuel (fuel : nat) (base n : Z) (acc : list ascii) : list ascii :=
  match fuel with
  | O => acc
  | S f =>
      let acc' := digit_char (n mod base) :: acc in
      if n / base =? 0 then acc' else digits_fuel f base (n / base) acc'
  end.

Definition digits (base n : Z) : list ascii :=
  digits_fuel (S (Z.to_nat (Z.log2 n))) base n [].

(** printf conversion [%d]. *)
Definition fmt_d (z : Z) : string :=
  if z <? 0 then String "-"%char (string_of_list_ascii (digits 10 (- z)))
  else string_of_list_ascii (digits 10 z).

(** printf conversion [%x] and the zero padded [%02x]. *)
Definition fmt_x (z : Z) : list ascii := digits 16 z.

Definition pad0 (width : nat) (l : list ascii) : list ascii :=
  repeat "0"%char (width - List.length l)%nat ++ l.

Definition fmt_02x (b : byte) : list byte :=
  map byte_of_ascii (pad0 2 (fmt_x (Z.of_N (Byte.to_N b)))).

Definition is_lower_hex (b : byte) : bool :=
  let n := Byte.to_N b in
  (((48 <=? n) && (n <=? 57)) || ((97 <=? n) && (n <=? 102)))%N.

Definition newline : byte := x0a.

(** ** strtol (base 10, no end pointer), after the C standard *)

Definition isspace (c : ascii) : bool :=
  let n := nat_of_ascii c in
  (Nat.eqb n 32 || (Nat.leb 9 n && Nat.leb n 13))%bool.

Definition isdigit (c : ascii) : bool :=
  let n := nat_of_ascii c in (Nat.leb 48 n && Nat.leb n 57)%bool.

Fixpoint skip_space (s : string) : string :=
  match s with
  | String c r => if isspace c then skip_space r else s
  | EmptyString => s
  end.

(** Value of the longest prefix of decimal digits, continuing from [acc]. *)
Fixpoint digits_value (s : string) (acc : Z) : Z :=
  match s with
  | String c r =>
      if isdigit c then digits_value r (10 * acc + (Z.of_nat (nat_of_ascii c) - 48))
      else acc
  | EmptyString => acc
  end.

Definition clamp_long (z : Z) : Z :=
  if z <? LONG_MIN then LONG_MIN else if LONG_MAX <? z then LONG_MAX else z.

Definition strtol (s : string) : Z :=
  match skip_space s with
  | String "-"%char r => clamp_long (- digits_value r 0)
  | String "+"%char r => clamp_long (digits_value r 0)
  | r => clamp_long (digits_value r 0)
  end.

(** A well-formed decimal integer: an optional sign and at least one digit,
    nothing else. *)
Fixpoint all_digits (s : string) : bool :=
  match s with
  | String c r => isdigit c && all_digits r
  | EmptyString => true
  end.

Definition well_formed_decimal (s : string) : bool :=
  match s with
  | String "-"%char (String c r) => all_digits (String c r)
  | String "+"%char (String c r) => all_digits (String c r)
  | String c r => all_digits (String c r)
  | EmptyString => false
  end.

(** [strrchr (s, '/')] as the length of the prefix before the last slash. *)
Fixpoint last_slash (s : string) : option nat :=
  match s with
  | EmptyString => None
  | String c r =>
      match last_slash r with
      | Some k => Some (S k)
      | None => if Ascii.eqb c "/"%char then Some O else None
      end
  end.

(** [PATH_MAX] of the Linux headers. *)
Definition PATH_MAX : Z := 4096.

Fixpoint no_nul (s : string) : bool :=
  match s with
  | EmptyString => true
  | String c r => negb (Ascii.eqb c zero) && no_nul r
  end.

(** The paths [seed_save] has a defined behaviour on: C strings (no NUL
    character inside) that contain a slash and whose part before the last
    slash, with its terminator, fits [char dirpart [PATH_MAX]].  On a path
    without a slash [strrchr] returns NULL and the length handed to
    [strncpy] is meaningless; with a longer directory part [strncpy] fills
    the array without terminator or writes past it. *)
Definition path_fits (seed_file : string) : bool :=
  match last_slash seed_file with
  | Some k => Z.of_nat k <? PATH_MAX
  | None => false
  end && no_nul seed_file.

(** ** The platform: operating system, C library and OpenSSL *)

Inductive opendir_result := DirOpened | DirError (errno : Z).

Record Platform := mk_platform {
  world : Type;
  (** [getopt_long (argc, argv, ":xv", options, NULL)] run to completion:
      the values it returns before -1, the final [optind], and [argv] as it
      leaves it (GNU getopt permutes it). *)
  getopt_long : list string -> list Z * Z * list string;
  access : string -> Z -> world -> Z;
  lstat : string -> world -> option stat;      (* [None]: returned -1 *)
  unlink : string -> world -> Z * world;
  opendir : string -> world -> opendir_result;
  mkdir : string -> Z -> world -> Z * world;
  (** OpenSSL *)
  RAND_load_file : string -> Z -> world -> Z * world;
  RAND_bytes : Z -> world -> Z * list byte * world;  (* result, bytes stored *)
  RAND_write_file : string -> world -> Z * world;
  ERR_get_error : world -> Z * world;
  ERR_reason_error_string : Z -> string
}.

(** ** Observable events *)

Inductive call :=
| CAccess (path : string) (mode : Z) (r : Z)
| CLstat (path : string) (r : option stat)
| CUnlink (path : string) (r : Z)
| COpendir (path : string) (r : opendir_result)
| CClosedir
| CMkdir (path : string) (mode : Z) (r : Z)
| CLoadFile (path : string) (max_bytes : Z) (r : Z)
| CRandBytes (num : Z) (r : Z)
| CWriteFile (path : string) (r : Z)
| CErrGetError (r : Z).

Inductive event :=
| EvStdout (bs : list byte)
| EvStderr (s : string)
| EvPerror (s : string)   (* the prefix; the errno text follows *)
| EvCall (c : call).

Definition unlink_perror : event :=
  EvPerror "Error executing unlink on seed file: ".

Definition stdout_of (l : list event) : list byte :=
  flat_map (fun e => match e with EvStdout bs => bs | _ => [] end) l.

Definition calls_of (l : list event) : list call :=
  flat_map (fun e => match e with EvCall c => [c] | _ => [] end) l.

Definition unlinked (l : list event) : list string :=
  flat_map (fun c => match c with CUnlink p _ => [p] | _ => [] end) (calls_of l).

Definition draws (l : list event) : list (Z * Z) :=
  flat_map (fun c => match c with CRandBytes n r => [(n, r)] | _ => [] end)
           (calls_of l).

Definition writes (l : list event) : list (string * Z) :=
  flat_map (fun c => match c with CWriteFile p r => [(p, r)] | _ => [] end)
           (calls_of l).

Definition loads (l : list event) : list (string * Z) :=
  flat_map (fun c => match c with CLoadFile p n _ => [(p, n)] | _ => [] end)
           (calls_of l).

(** What stdout holds after the bytes [bs] went through the output loop. *)
Definition rendered (a : args_t) (bs : list byte) : list byte :=
  if hex a then flat_map fmt_02x bs ++ [newline] else bs.

(** getopt_long returned ['h'] (104) or ['?'] (63) at some point. *)
Definition help_requested (rets : list Z) : bool :=
  existsb (fun c => (c =? 104) || (c =? 63)) rets.

(** What the output loop and the final newline of [main] print for the
    bytes [bs], one event per printf call. *)
Definition output_events (a : args_t) (bs : list byte) : list event :=
  map (fun b => EvStdout (if hex a then fmt_02x b else [b])) bs
  ++ (if hex a then [EvStdout [newline]] else []).

(** ** The program monad: state, log and [exit] *)

Inductive outcome (A : Type) :=
| Returned (a : A)
| Exited (status : Z).
Arguments Returned {A} a.
Arguments Exited {A} status.

Section Program.
Context (P : Platform).

(** The state of a run: the outside world, the global [args] and the log. *)
Record pstate := mk_pstate {
  ps_world : world P;
  ps_args : args_t;
  ps_log : list event
}.

Definition prog (A : Type) : Type := pstate -> outcome A * pstate.

Definition ret {A} (a : A) : prog A := fun s => (Returned a, s).

Definition bind {A B} (m : prog A) (k : A -> prog B) : prog B :=
  fun s =>
    match m s with
    | (Returned a, s') => k a s'
    | (Exited c, s') => (Exited c, s')
    end.

Definition exit {A} (status : Z) : prog A := fun s => (Exited status, s).

Notation "x <- m ;; k" := (bind m (fun x => k))
  (at level 100, m at next level, right associativity).
Notation "m ;; k" := (bind m (fun _ => k))
  (at level 100, right associativity).

Definition logged (s : pstate) (w : world P) (e : event) : pstate :=
  mk_pstate w (ps_args s) (ps_log s ++ [e]).

Definition emit (e : event) : prog unit :=
  fun s => (Returned tt, logged s (ps_world s) e).

Definition fprintf_stderr (msg : string) : prog unit := emit (EvStderr msg).
Definition perror (msg : string) : prog unit := emit (EvPerror msg).
Definition printf (bs : list byte) : prog unit := emit (EvStdout bs).

Definition get_args : prog args_t := fun s => (Returned (ps_args s), s).
Definition set_args (a : args_t) : prog unit :=
  fun s => (Returned tt, mk_pstate (ps_world s) a (ps_log s)).

(** Platform calls, each logged with its result. *)
Definition sys_access (path : string) (mode : Z) : prog Z :=
  fun s =>
    let r := access P path mode (ps_world s) in
    (Returned r, logged s (ps_world s) (EvCall (CAccess path mode r))).

Definition sys_lstat (path : string) : prog (option stat) :=
  fun s =>
    let r := lstat P path (ps_world s) in
    (Returned r, logged s (ps_world s) (EvCall (CLstat path r))).

Definition sys_unlink (path : string) : prog Z :=
  fun s =>
    let r := unlink P path (ps_world s) in
    (Returned (fst r), logged s (snd r) (EvCall (CUnlink path (fst r)))).

Definition sys_opendir (path : string) : prog opendir_result :=
  fun s =>
    let r := opendir P path (ps_world s) in
    (Returned r, logged s (ps_world s) (EvCall (COpendir path r))).

Definition sys_closedir : prog unit := emit (EvCall CClosedir).

Definition sys_mkdir (path : string) (mode : Z) : prog Z :=
  fun s =>
    let r := mkdir P path mode (ps_world s) in
    (Returned (fst r), logged s (snd r) (EvCall (CMkdir path mode (fst r)))).

Definition rand_load_file (path : string) (max_bytes : Z) : prog Z :=
  fun s =>
    let r := RAND_load_file P path max_bytes (ps_world s) in
    (Returned (fst r), logged s (snd r) (EvCall (CLoadFile path max_bytes (fst r)))).

(** What [RAND_bytes (dest, num)] leaves in [dest]: the bytes the generator
    produced, at most [num] of them, over the first cells. *)
Definition store (dest src : list byte) : list byte :=
  src ++ skipn (List.length src) dest.

Definition rand_bytes (dest : list byte) (num : Z) : prog (Z * list byte) :=
  fun s =>
    let r := RAND_bytes P num (ps_world s) in
    let rc := fst (fst r) in
    (Returned (rc, store dest (firstn (Z.to_nat num) (snd (fst r)))),
     logged s (snd r) (EvCall (CRandBytes num rc))).

Definition rand_write_file (path : string) : prog Z :=
  fun s =>
    let r := RAND_write_file P path (ps_world s) in
    (Returned (fst r), logged s (snd r) (EvCall (CWriteFile path (fst r)))).

Definition err_get_error : prog Z :=
  fun s =>
    let r := ERR_get_error P (ps_world s) in
    (Returned (fst r), logged s (snd r) (EvCall (CErrGetError (fst r)))).

(** ** seed_rand *)

(** Lines 61-100 of [seed_rand]: the choice of [seed] and [size].
    [None] is the jump to [err_out] after a failed lstat. *)
Definition seed_select (seed_file : string) : prog (option (string * Z)) :=
  let seed := seed_file in
  let size := ENTROPY_SIZE in
  a <- sys_access seed_file (Z.lor R_OK W_OK) ;;
  if a =? 0 then
    st <- sys_lstat seed_file ;;
    match st with
    | None =>
        perror "Error executing lstat on seed file: " ;;
        ret None
    | Some seed_stat =>
        seed <- (if negb (S_ISREG (st_mode seed_stat)) then
                   fprintf_stderr ("Seed file isn't regular file: " ++ seed_file
                                   ++ ". Falling back to " ++ ENTROPY_SOURCE ++ nl) ;;
                   u <- sys_unlink seed_file ;;
                   (if u =? -1
                    then perror "Error executing unlink on seed file: "
                    else ret tt) ;;
                   ret ENTROPY_SOURCE
                 else ret seed) ;;
        if st_size seed_stat <? ENTROPY_SIZE then
          let seed := ENTROPY_SOURCE in
          fprintf_stderr ("Seed file is too samll. Falling back to " ++ seed
                          ++ "." ++ nl) ;;
          u <- sys_unlink seed_file ;;
          (if u =? -1
           then perror "Error executing unlink on seed file: "
           else ret tt) ;;
          ret (Some (seed, size))
        else
          (* int size = seed_stat.st_size : off_t narrowed to int *)
          ret (Some (seed, to_int (st_size seed_stat)))
    end
  else
    fprintf_stderr ("Unable to access seed file. If it exists, be sure it's "
                    ++ "both readable and writable. Falling back to "
                    ++ ENTROPY_SOURCE ++ "." ++ nl) ;;
    ret (Some (ENTROPY_SOURCE, size)).

(** Lines 102-111: the load from the chosen source. *)
Definition seed_load (seed : string) (size : Z) : prog Z :=
  r <- rand_load_file seed size ;;
  if negb (r =? size) then
    randerr <- err_get_error ;;
    fprintf_stderr ("RAND_load_file failed: "
                    ++ ERR_reason_error_string P randerr ++ nl) ;;
    ret 1
  else
    a <- get_args ;;
    (if verbose a
     then fprintf_stderr ("RAND_load_file: loaded " ++ fmt_d size
                          ++ " bytes from " ++ seed ++ nl)
     else ret tt) ;;
    ret 0.

Definition seed_rand (seed_file : string) : prog Z :=
  sel <- seed_select seed_file ;;
  match sel with
  | None => ret 1
  | Some (seed, size) => seed_load seed size
  end.

(** ** seed_save *)

(** [strncpy (dirpart, seed_file, dirend - seed_file)] into a zeroed array
    of [PATH_MAX] bytes.  This is what the array holds for the paths of
    [path_fits] only: a path without a slash makes [dirend] null, and a
    directory part of [PATH_MAX] bytes or more does not fit the array; the
    C code has no defined behaviour there.  [SEED_FILE], the one path
    [main] passes, fits. *)
Definition dirpart (seed_file : string) : string :=
  match last_slash seed_file with
  | Some k => substring 0 k seed_file
  | None => ""
  end.

(** The behaviour of [seed_save] on the paths of [path_fits]; on other
    paths the C function has no defined behaviour (see [dirpart]) and the
    properties below say nothing. *)
Definition seed_save (seed_file : string) : prog Z :=
  let dir := dirpart seed_file in
  d <- sys_opendir dir ;;
  (match d with
   | DirError errno =>
       if errno =? ENOENT then
         m <- sys_mkdir dir (Z.lor (Z.lor S_IRWXU S_IRGRP) S_IXGRP) ;;
         if m =? -1 then
           fprintf_stderr ("Error executing mkdir " ++ dir ++ ": ") ;;
           perror ""
         else ret tt
       else
         fprintf_stderr ("Error executing opendir on " ++ dir ++ ": ") ;;
         perror ""
   | DirOpened => sys_closedir
   end) ;;
  b <- rand_write_file seed_file ;;
  if b =? -1 then
    randerr <- err_get_error ;;
    fprintf_stderr ("RAND_write_file failed: "
                    ++ ERR_reason_error_string P randerr ++ nl) ;;
    ret 1
  else
    a <- get_args ;;
    (if verbose a
     then fprintf_stderr ("RAND_write_file wrote " ++ fmt_d b ++ " bytes to "
                          ++ seed_file ++ nl)
     else ret tt) ;;
    ret 0.

(** ** get_rand *)

(** [None] is the NULL result; [Some] carries the contents of [dest]. *)
Definition get_rand (dest : list byte) (size : Z) : prog (option (list byte)) :=
  a <- get_args ;;
  (if verbose a
   then fprintf_stderr ("reading " ++ fmt_d (to_int size) ++ " RAND_bytes" ++ nl)
   else ret tt) ;;
  r <- rand_bytes dest (to_int size) ;;
  if negb (fst r =? 1) then
    randerr <- err_get_error ;;
    fprintf_stderr ("RAND_bytes failed: "
                    ++ ERR_reason_error_string P randerr ++ nl) ;;
    ret None
  else ret (Some (snd r)).

(** ** args_parse and args_sanity *)

Definition USAGE (argv0 : string) : prog unit :=
  fprintf_stderr ("Usage: " ++ argv0 ++ " [--hex|--verbose|--help] bytes" ++ nl).

(** The body of the getopt loop, over the values getopt_long returns. *)
Fixpoint args_parse_opts (argv0 : string) (rets : list Z) : prog unit :=
  match rets with
  | [] => ret tt
  | r :: rest =>
      (if r =? 120 (* 'x' *) then
         a <- get_args ;; set_args (mk_args true (verbose a) (bytes a))
       else if r =? 118 (* 'v' *) then
         a <- get_args ;; set_args (mk_args (hex a) true (bytes a))
       else if (r =? 104) || (r =? 63) (* 'h', '?' *) then
         USAGE argv0 ;; exit EXIT_SUCCESS
       else
         fprintf_stderr ("Unexpected argument: "
                         ++ String (ascii_of_nat (Z.to_nat r)) "")) ;;
      args_parse_opts argv0 rest
  end.

Definition args_parse (argv : list string) : prog unit :=
  let argc := Z.of_nat (List.length argv) in
  let g := getopt_long P argv in
  let rets := fst (fst g) in
  let optind := snd (fst g) in
  let argv' := snd g in
  args_parse_opts (nth 0 argv' "") rets ;;
  if negb (argc =? optind + 1) then
    USAGE (nth 0 argv' "") ;; exit EXIT_FAILURE
  else
    a <- get_args ;;
    set_args (mk_args (hex a) (verbose a)
                      (to_size_t (strtol (nth (Z.to_nat optind) argv' "")))).

(** The comparisons are made in [unsigned long], the type of [args.bytes]. *)
Definition args_sanity : prog Z :=
  a <- get_args ;;
  if (bytes a =? to_size_t LONG_MIN)
     || (bytes a =? to_size_t LONG_MAX)
     || (bytes a >? to_size_t MAX_BYTES)
     || (bytes a <=? to_size_t 0)
  then
    fprintf_stderr ("'bytes' must be between 0 and " ++ fmt_d MAX_BYTES ++ nl) ;;
    ret 1
  else ret 0.

(** ** main *)

(** The output loop: [i] runs from its start value over [n] iterations.
    [args.bytes] is at most [MAX_BYTES] here, so [i] stays an [int]. *)
Fixpoint print_loop (buffer : list byte) (i n : nat) : prog unit :=
  match n with
  | O => ret tt
  | S n' =>
      a <- get_args ;;
      (if hex a
       then printf (fmt_02x (nth i buffer x00))
       else printf [nth i buffer x00]) ;;
      print_loop buffer (S i) n'
  end.

(** [buffer] is not initialised by the program; its cells are read only
    after [RAND_bytes] reported success. *)
Definition main (argv : list string) : prog Z :=
  let buffer := repeat x00 (Z.to_nat MAX_BYTES) in
  args_parse argv ;;
  c <- args_sanity ;;
  (if negb (c =? 0) then exit EXIT_FAILURE else ret tt) ;;
  c <- seed_rand SEED_FILE ;;
  (if negb (c =? 0) then exit EXIT_FAILURE else ret tt) ;;
  a <- get_args ;;
  g <- get_rand buffer (bytes a) ;;
  match g with
  | None => exit EXIT_FAILURE
  | Some buffer =>
      a <- get_args ;;
      print_loop buffer 0 (Z.to_nat (bytes a)) ;;
      (if hex a then printf [newline] else ret tt) ;;
      seed_save SEED_FILE ;;
      exit EXIT_SUCCESS
  end.

(** A run from a fresh process: zeroed [args], empty log. *)
Definition start (w : world P) : pstate := mk_pstate w args0 [].

Definition run (argv : list string) (w : world P) : outcome Z * pstate :=
  main argv (start w).

End Program.

Arguments ps_world {P} _.
Arguments ps_args {P} _.
Arguments ps_log {P} _.

(** Returning [c] from main and calling [exit (c)] end the process alike. *)
Definition exit_status (o : outcome Z) : Z :=
  match o with Returned c => c | Exited c => c end.

(** ** A concrete platform

    A small file system (an association list from paths to inodes) and a
    generator that hands out a fixed pool of bytes once it has been seeded.
    It is used to run the program on concrete inputs. *)

Module Sim.

Record inode := mk_inode { i_mode : Z; i_size : Z; i_rw : bool }.

Record sim_world := mk_sim {
  fs : list (string * inode);
  lstat_error : bool;        (* lstat fails: I/O error, or the entry vanished *)
  seeded : bool;
  pool : list byte;
  write_size : Z             (* what RAND_write_file writes; -1: it fails *)
}.

Fixpoint lookup (path : string) (l : list (string * inode)) : option inode :=
  match l with
  | [] => None
  | (p, i) :: r => if String.eqb p path then Some i else lookup path r
  end.

Definition remove (path : string) (l : list (string * inode)) :=
  filter (fun e => negb (String.eqb (fst e) path)) l.

Definition with_fs (w : sim_world) (f : list (string * inode)) : sim_world :=
  mk_sim f (lstat_error w) (seeded w) (pool w) (write_size w).

Definition regular (size : Z) : inode := mk_inode (Z.lor S_IFREG 384) size true.
Definition read_only (size : Z) : inode := mk_inode (Z.lor S_IFREG 256) size false.
Definition directory : inode := mk_inode (Z.lor S_IFDIR 488) 4096 true.
Definition device : inode := mk_inode (Z.lor S_IFCHR 438) 0 true.
Definition fifo : inode := mk_inode (Z.lor 4096 438) 0 true.   (* S_IFIFO *)
Definition huge_directory : inode := mk_inode (Z.lor S_IFDIR 488) (2 ^ 32 + 4096) true.

(** getopt_long for [":xv"] and the long options hex, verbose and help. *)
Definition long_opts : list (string * Z) :=
  [("hex", 120); ("verbose", 118); ("help", 104)].

Definition long_code (name : string) : Z :=
  match filter (fun o => String.eqb (fst o) name) long_opts with
  | o :: _ => snd o
  | [] =>
      match filter (fun o => String.prefix name (fst o)) long_opts with
      | [o] => snd o
      | _ => 63
      end
  end.

Fixpoint short_codes (s : string) : list Z :=
  match s with
  | EmptyString => []
  | String c r =>
      (if Ascii.eqb c "x" then 120 else if Ascii.eqb c "v" then 118 else 63)
        :: short_codes r
  end.

Definition classify (arg : string) : option (list Z) :=
  match arg with
  | String "-" (String "-" name) => Some [long_code name]
  | String "-" (String c r) => Some (short_codes (String c r))
  | _ => None
  end.

(** Codes, option words and operands of an argument list. *)
Fixpoint scan (l : list string) : list Z * list string * list string :=
  match l with
  | [] => ([], [], [])
  | a :: rest =>
      if String.eqb a "--" then ([], [a], rest)
      else
        let r := scan rest in
        match classify a with
        | Some cs => (cs ++ fst (fst r), a :: snd (fst r), snd r)
        | None => (fst (fst r), snd (fst r), a :: snd r)
        end
  end.

Definition sim_getopt (argv : list string) : list Z * Z * list string :=
  let r := scan (tl argv) in
  (fst (fst r), 1 + Z.of_nat (List.length (snd (fst r))),
   firstn 1 argv ++ snd (fst r) ++ snd r).

Definition sim_access (path : string) (mode : Z) (w : sim_world) : Z :=
  match lookup path (fs w) with
  | Some i => if i_rw i then 0 else -1
  | None => -1
  end.

Definition sim_lstat (path : string) (w : sim_world) : option stat :=
  if lstat_error w then None
  else option_map (fun i => mk_stat (i_mode i) (i_size i)) (lookup path (fs w)).

Definition sim_unlink (path : string) (w : sim_world) : Z * sim_world :=
  match lookup path (fs w) with
  | Some i => if S_ISDIR (i_mode i) then (-1, w)
              else (0, with_fs w (remove path (fs w)))
  | None => (-1, w)
  end.

Definition sim_opendir (path : string) (w : sim_world) : opendir_result :=
  match lookup path (fs w) with
  | Some i => if S_ISDIR (i_mode i) then DirOpened else DirError ENOTDIR
  | None => DirError ENOENT
  end.

Definition sim_mkdir (path : string) (mode : Z) (w : sim_world) : Z * sim_world :=
  match lookup path (fs w) with
  | Some _ => (-1, w)
  | None => (0, with_fs w ((path, mk_inode (Z.lor S_IFDIR mode) 4096 true) :: fs w))
  end.

Definition sim_load (path : string) (n : Z) (w : sim_world) : Z * sim_world :=
  let got :=
    match lookup path (fs w) with
    | None => 0
    | Some i =>
        if S_ISCHR (i_mode i) then Z.max 0 n
        else if (0 <? n) && (n <? i_size i) then n else to_int (i_size i)
    end in
  (got, mk_sim (fs w) (lstat_error w) (seeded w || (0 <? got)) (pool w) (write_size w)).

Definition sim_bytes (n : Z) (w : sim_world) : Z * list byte * sim_world :=
  if seeded w && (Z.to_nat n <=? List.length (pool w))%nat
  then (1, firstn (Z.to_nat n) (pool w),
        mk_sim (fs w) (lstat_error w) true (skipn (Z.to_nat n) (pool w)) (write_size w))
  else (0, [], w).

Definition sim_write (path : string) (w : sim_world) : Z * sim_world :=
  if write_size w =? -1 then (-1, w)
  else
    match sim_opendir (dirpart path) w with
    | DirOpened => (write_size w,
                    with_fs w ((path, regular (write_size w)) :: remove path (fs w)))
    | DirError _ => (-1, w)
    end.

Definition platform : Platform :=
  mk_platform sim_world sim_getopt sim_access sim_lstat sim_unlink sim_opendir
              sim_mkdir sim_load sim_bytes sim_write
              (fun w => (0, w)) (fun _ => "error").

(** Sixteen pool bytes, repeated to fill a request of any allowed size. *)
Definition sample : list byte :=
  [x00; x01; x7f; x80; xab; xcd; xef; xff; x10; x0a; x41; x61; x39; x30; xfe; x5a].

Definition sample_pool : list byte := List.concat (repeat sample 64).

(** A world with the entropy device, the seed directory, and [seed] at the
    seed path. *)
Definition world_with (seed : option inode) : sim_world :=
  mk_sim ((ENTROPY_SOURCE, device) :: ("/var/lib/rand", directory)
            :: match seed with Some i => [(SEED_FILE, i)] | None => [] end)
         false false sample_pool 1024.

(** A world with a valid seed file of 64 bytes. *)
Definition good_seed : sim_world := world_with (Some (regular 64)).

(** The same world with lstat failing, with a generator that cannot
    deliver, and with a seed file that cannot be written. *)
Definition lstat_failing (w : sim_world) : sim_world :=
  mk_sim (fs w) true (seeded w) (pool w) (write_size w).

Definition exhausted (w : sim_world) : sim_world :=
  mk_sim (fs w) (lstat_error w) (seeded w) [] (write_size w).

Definition unwritable (w : sim_world) : sim_world :=
  mk_sim (fs w) (lstat_error w) (seeded w) (pool w) (-1).

End Sim.

(** ** Views used by the properties of the whole program *)

Section Views.
Context (P : Platform).

(** Lines 237-247 of [main]: the output loop, the newline of hex mode,
    the attempt to save the seed and the exit. *)
Definition main_output (buffer : list byte) : prog P Z :=
  bind P (get_args P) (fun a =>
  bind P (print_loop P buffer 0 (Z.to_nat (bytes a))) (fun _ =>
  bind P (if hex a then printf P [newline] else ret P tt) (fun _ =>
  bind P (seed_save P SEED_FILE) (fun _ =>
  exit P EXIT_SUCCESS)))).

(** Lines 231-247 of [main]: what follows the two argument checks. *)
Definition main_core : prog P Z :=
  let buffer := repeat x00 (Z.to_nat MAX_BYTES) in
  bind P (seed_rand P SEED_FILE) (fun c =>
  bind P (if negb (c =? 0) then exit P EXIT_FAILURE else ret P tt) (fun _ =>
  bind P (get_args P) (fun a =>
  bind P (get_rand P buffer (bytes a)) (fun g =>
  match g with
  | None => exit P EXIT_FAILURE
  | Some buffer => main_output buffer
  end)))).

(** What selection decides and the world it leaves, as functions of the
    world it starts in. *)
Definition selected (seed_file : string) (w : world P) : outcome (option (string * Z)) :=
  fst (seed_select P seed_file (start P w)).

Definition world_after_select (seed_file : string) (w : world P) : world P :=
  ps_world (snd (seed_select P seed_file (start P w))).

(** The world [seed_save] writes the seed file in: the one left by mkdir
    when opendir failed with [ENOENT], the one it started in otherwise. *)
Definition world_after_repair (dir : string) (w : world P) : world P :=
  match opendir P dir w with
  | DirError errno =>
      if errno =? ENOENT
      then snd (mkdir P dir (Z.lor (Z.lor S_IRWXU S_IRGRP) S_IXGRP) w)
      else w
  | DirOpened => w
  end.

(** The calls [seed_save] makes on the parent directory. *)
Definition repair_calls (dir : string) (w : world P) : list call :=
  let d := opendir P dir w in
  COpendir dir d
  :: match d with
     | DirOpened => [CClosedir]
     | DirError errno =>
         if errno =? ENOENT
         then [CMkdir dir 488 (fst (mkdir P dir 488 w))]
         else []
     end.

(** Two states that differ at most in [args.verbose] and in what was
    written to stderr. *)
Definition same_observables (s s' : pstate P) : Prop :=
  ps_world s = ps_world s'
  /\ hex (ps_args s) = hex (ps_args s')
  /\ bytes (ps_args s) = bytes (ps_args s')
  /\ stdout_of (ps_log s) = stdout_of (ps_log s')
  /\ calls_of (ps_log s) = calls_of (ps_log s').

(** Two computations that, from such states, give the same result and end
    in such states. *)
Definition related {A : Type} (m m' : prog P A) : Prop :=
  forall s s', same_observables s s' ->
               fst (m s) = fst (m' s')
               /\ same_observables (snd (m s)) (snd (m' s')).

End Views.

(** Messages on stderr, from fprintf or perror. *)
Definition diagnostics (l : list event) : list event :=
  filter (fun e => match e with EvStderr _ | EvPerror _ => true | _ => false end) l.


(** The usage line of [USAGE]. *)
Definition usage_line (argv0 : string) : event :=
  EvStderr ("Usage: " ++ argv0 ++ " [--hex|--verbose|--help] bytes" ++ nl).

(** ** Proof automation *)

(** Unfold the monad and the wrappers around the platform calls. *)
Ltac run_prog :=
  cbv beta delta [seed_select seed_load seed_rand seed_save get_rand args_sanity
                  bind ret exit sys_access sys_lstat sys_unlink sys_opendir
                  sys_closedir sys_mkdir rand_load_file rand_bytes
                  rand_write_file err_get_error get_args set_args USAGE
                  fprintf_stderr perror printf emit logged ENTROPY_SIZE]; cbn.

Ltac split_cond :=
  match goal with
  | |- context [if ?b then _ else _] => destruct b eqn:?
  end; cbn.

(** The events a step appended to the log, as a suffix of the final log. *)
Ltac log_suffix :=
  rewrite <- ?app_assoc; cbn [app]; eexists; split; [reflexivity | cbn].

(** Case analysis for two runs of one function from related states. *)
Ltac relate_leaves :=
  repeat match goal with
         | |- context [if ?b then _ else _] => destruct b; cbn
         | |- context [lstat ?Q ?f ?v] => destruct (lstat Q f v); cbn
         | |- context [opendir ?Q ?d ?v] => destruct (opendir Q d v); cbn
         end;
  unfold same_observables; cbn [ps_world ps_args ps_log fst snd];
  autorewrite with log;
  repeat match goal with
         | H : stdout_of _ = stdout_of _ |- _ => rewrite H; clear H
         | H : calls_of _ = calls_of _ |- _ => rewrite H; clear H
         end;
  repeat split; auto.

Ltac relate_by_cases :=
  intros [w [hx vb n] l] [w' [hx' vb' n'] l'] (Hw & Hh & Hb & Ho & Hc);
  cbn [ps_world ps_args ps_log hex bytes] in Hw, Hh, Hb, Ho, Hc; subst w' hx' n';
  destruct vb, vb'; run_prog; relate_leaves.

(** * Properties *)

(** ** The log projections *)

Lemma stdout_of_app (l1 l2 : list event) :
  stdout_of (l1 ++ l2) = stdout_of l1 ++ stdout_of l2.
Proof. apply flat_map_app. Qed.

Lemma calls_of_app (l1 l2 : list event) :
  calls_of (l1 ++ l2) = calls_of l1 ++ calls_of l2.
Proof. apply flat_map_app. Qed.

Lemma draws_app (l1 l2 : list event) : draws (l1 ++ l2) = draws l1 ++ draws l2.
Proof. unfold draws. rewrite calls_of_app. apply flat_map_app. Qed.

Lemma writes_app (l1 l2 : list event) : writes (l1 ++ l2) = writes l1 ++ writes l2.
Proof. unfold writes. rewrite calls_of_app. apply flat_map_app. Qed.

Lemma loads_app (l1 l2 : list event) : loads (l1 ++ l2) = loads l1 ++ loads l2.
Proof. unfold loads. rewrite calls_of_app. apply flat_map_app. Qed.

Lemma unlinked_app (l1 l2 : list event) :
  unlinked (l1 ++ l2) = unlinked l1 ++ unlinked l2.
Proof. unfold unlinked. rewrite calls_of_app. apply flat_map_app. Qed.

Lemma no_calls_no_draws (l : list event) : calls_of l = [] -> draws l = [].
Proof. unfold draws. intros ->. reflexivity. Qed.

Lemma no_calls_no_writes (l : list event) : calls_of l = [] -> writes l = [].
Proof. unfold writes. intros ->. reflexivity. Qed.

Lemma output_events_calls (a : args_t) (bs : list byte) :
  calls_of (output_events a bs) = [].
Proof.
  unfold output_events. rewrite calls_of_app.
  assert (H : calls_of (map (fun b => EvStdout (if hex a then fmt_02x b else [b])) bs) = []).
  { induction bs as [| b bs IH]; [reflexivity | exact IH]. }
  rewrite H. destruct (hex a); reflexivity.
Qed.

Create Rewrite HintDb log.
#[local] Hint Rewrite stdout_of_app calls_of_app draws_app writes_app loads_app
  unlinked_app app_nil_r : log.

(** ** Selection of the seed source *)

Section Selection.
Context (P : Platform).

(** Selection falls through to the load in every case but a failed lstat,
    and the source it settles on is the seed file or the entropy device. *)
Lemma seed_select_cases (seed_file : string) (s : pstate P) :
  (access P seed_file (Z.lor R_OK W_OK) (ps_world s) = 0
   /\ lstat P seed_file (ps_world s) = None
   /\ fst (seed_select P seed_file s) = Returned None)
  \/ exists seed size,
       fst (seed_select P seed_file s) = Returned (Some (seed, size))
       /\ (seed = seed_file \/ seed = ENTROPY_SOURCE).
Proof.
  run_prog.
  destruct (access P seed_file 6 (ps_world s) =? 0) eqn:Ea; cbn.
  - apply Z.eqb_eq in Ea.
    destruct (lstat P seed_file (ps_world s)) as [st|] eqn:El; cbn.
    + right. repeat split_cond; eauto.
    + left. auto.
  - right. eauto.
Qed.

(** Selection only ever adds stderr text and access, lstat and unlink calls
    to the log; it leaves [args] alone. *)
Lemma seed_select_frame (seed_file : string) (s : pstate P) :
  ps_args (snd (seed_select P seed_file s)) = ps_args s
  /\ exists l, ps_log (snd (seed_select P seed_file s)) = ps_log s ++ l
              /\ stdout_of l = [] /\ loads l = []
              /\ Forall (fun c => match c with
                                  | CAccess _ _ _ | CLstat _ _ | CUnlink _ _ => True
                                  | _ => False
                                  end) (calls_of l).
Proof.
  run_prog.
  destruct (access P seed_file 6 (ps_world s) =? 0); cbn.
  - destruct (lstat P seed_file (ps_world s)) as [st|]; cbn.
    + repeat split_cond; (split; [reflexivity | log_suffix; repeat split; auto]).
    + split; [reflexivity | log_suffix; repeat split; auto].
  - split; [reflexivity | log_suffix; repeat split; auto].
Qed.

(** When lstat fails on an accessible path, [seed_rand] returns 1 without
    calling RAND_load_file. *)
Lemma seed_rand_lstat_failure (seed_file : string) (s : pstate P) :
  access P seed_file (Z.lor R_OK W_OK) (ps_world s) = 0 ->
  lstat P seed_file (ps_world s) = None ->
  fst (seed_rand P seed_file s) = Returned 1
  /\ exists l, ps_log (snd (seed_rand P seed_file s)) = ps_log s ++ l
              /\ loads l = [].
Proof.
  intros Ha Hl. run_prog. cbn in Ha. rewrite Ha. cbn. rewrite Hl. cbn.
  split; [reflexivity | log_suffix; reflexivity].
Qed.

(** C5: an accessible regular seed file shorter than [ENTROPY_SIZE] (32)
    makes selection choose the entropy device with the default read size,
    and unlink is called on the seed file, once; when unlink fails this is
    reported with perror and selection still returns the entropy device. *)
Theorem C5_short_seed_file (seed_file : string) (s : pstate P) (seed_stat : stat) :
  access P seed_file (Z.lor R_OK W_OK) (ps_world s) = 0 ->
  lstat P seed_file (ps_world s) = Some seed_stat ->
  S_ISREG (st_mode seed_stat) = true ->
  st_size seed_stat < ENTROPY_SIZE ->
  let r := seed_select P seed_file s in
  let u := unlink P seed_file (ps_world s) in
  fst r = Returned (Some (ENTROPY_SOURCE, ENTROPY_SIZE))
  /\ ps_world (snd r) = snd u
  /\ exists l, ps_log (snd r) = ps_log s ++ l
              /\ unlinked l = [seed_file]
              /\ (fst u = -1 -> In unlink_perror l).
Proof.
  intros Ha Hl Hreg Hsz r u. subst r u. run_prog. cbn in Ha.
  rewrite Ha. cbn. rewrite Hl. cbn. rewrite Hreg. cbn.
  apply Z.ltb_lt in Hsz. unfold ENTROPY_SIZE in *. rewrite Hsz. cbn.
  destruct (fst (unlink P seed_file (ps_world s)) =? -1) eqn:Eu; cbn.
  - repeat split. log_suffix. split; [reflexivity |]. intros _. unfold unlink_perror. auto 10.
  - repeat split. log_suffix. split; [reflexivity |].
    intros Hu. rewrite Hu in Eu. discriminate.
Qed.

(** C6: an accessible seed path that is not a regular file makes selection
    choose the entropy device, and unlink is called on the path; when that
    unlink fails this is reported with perror and selection still returns
    the entropy device. *)
Theorem C6_not_regular (seed_file : string) (s : pstate P) (seed_stat : stat) :
  access P seed_file (Z.lor R_OK W_OK) (ps_world s) = 0 ->
  lstat P seed_file (ps_world s) = Some seed_stat ->
  S_ISREG (st_mode seed_stat) = false ->
  let r := seed_select P seed_file s in
  let u := unlink P seed_file (ps_world s) in
  (exists size, fst r = Returned (Some (ENTROPY_SOURCE, size)))
  /\ exists l, ps_log (snd r) = ps_log s ++ l
              /\ hd_error (unlinked l) = Some seed_file
              /\ (fst u = -1 -> In unlink_perror l).
Proof.
  intros Ha Hl Hreg r u. subst r u. run_prog. cbn in Ha.
  rewrite Ha. cbn. rewrite Hl. cbn. rewrite Hreg. cbn.
  destruct (fst (unlink P seed_file (ps_world s)) =? -1) eqn:Eu; cbn;
    repeat split_cond;
    (split; [eexists; reflexivity |]); log_suffix;
    (split; [reflexivity |]); unfold unlink_perror; intros Hu;
    try (rewrite Hu in Eu; discriminate); auto 10.
Qed.

(** C7: a seed path that is not accessible for reading and writing makes
    selection choose the entropy device with the default read size; the
    log gains the access call and one diagnostic, so no unlink is called,
    and the world is the one selection started in. *)
Theorem C7_inaccessible (seed_file : string) (s : pstate P) :
  access P seed_file (Z.lor R_OK W_OK) (ps_world s) <> 0 ->
  let r := seed_select P seed_file s in
  fst r = Returned (Some (ENTROPY_SOURCE, ENTROPY_SIZE))
  /\ ps_world (snd r) = ps_world s
  /\ exists l,
      ps_log (snd r) = ps_log s ++ l
      /\ l = [EvCall (CAccess seed_file (Z.lor R_OK W_OK)
                              (access P seed_file (Z.lor R_OK W_OK) (ps_world s)));
              EvStderr ("Unable to access seed file. If it exists, be sure it's "
                        ++ "both readable and writable. Falling back to "
                        ++ ENTROPY_SOURCE ++ "." ++ nl)]
      /\ unlinked l = [].
Proof.
  intros Ha r. subst r. run_prog. cbn in Ha.
  destruct (access P seed_file 6 (ps_world s) =? 0) eqn:E; cbn.
  - apply Z.eqb_eq in E. contradiction.
  - repeat split. log_suffix. split; reflexivity.
Qed.

Lemma to_int_id (z : Z) : - 2 ^ 31 <= z <= INT_MAX -> to_int z = z.
Proof.
  unfold to_int, INT_MAX. intros H.
  rewrite Z.mod_small by lia. lia.
Qed.

(** An accessible regular seed file of at least [ENTROPY_SIZE] bytes is the
    source selection returns, with the file size narrowed to [int] as read
    size; nothing is unlinked. *)
Lemma seed_select_regular (seed_file : string) (s : pstate P) (seed_stat : stat) :
  access P seed_file (Z.lor R_OK W_OK) (ps_world s) = 0 ->
  lstat P seed_file (ps_world s) = Some seed_stat ->
  S_ISREG (st_mode seed_stat) = true ->
  ENTROPY_SIZE <= st_size seed_stat ->
  let r := seed_select P seed_file s in
  fst r = Returned (Some (seed_file, to_int (st_size seed_stat)))
  /\ ps_world (snd r) = ps_world s
  /\ exists l, ps_log (snd r) = ps_log s ++ l /\ unlinked l = [].
Proof.
  intros Ha Hl Hreg Hsz r. subst r. run_prog. cbn in Ha.
  rewrite Ha. cbn. rewrite Hl. cbn. rewrite Hreg. cbn.
  unfold ENTROPY_SIZE in *.
  destruct (st_size seed_stat <? 32) eqn:E; [apply Z.ltb_lt in E; lia |].
  cbn. repeat split. log_suffix. reflexivity.
Qed.

(** The same with a size that fits an [int]: the read size is the size of
    the file. *)
Lemma seed_select_regular_size (seed_file : string) (s : pstate P) (seed_stat : stat) :
  access P seed_file (Z.lor R_OK W_OK) (ps_world s) = 0 ->
  lstat P seed_file (ps_world s) = Some seed_stat ->
  S_ISREG (st_mode seed_stat) = true ->
  ENTROPY_SIZE <= st_size seed_stat <= INT_MAX ->
  fst (seed_select P seed_file s) = Returned (Some (seed_file, st_size seed_stat)).
Proof.
  intros Ha Hl Hreg Hsz.
  destruct (seed_select_regular seed_file s seed_stat Ha Hl Hreg (proj1 Hsz)) as [H _].
  cbn zeta in H. rewrite H, to_int_id; [reflexivity |].
  unfold ENTROPY_SIZE in Hsz. lia.
Qed.

(** The load that follows selection asks for the selected size from the
    selected source. *)
Lemma seed_rand_loads (seed_file : string) (s : pstate P) (seed : string) (size : Z) :
  fst (seed_select P seed_file s) = Returned (Some (seed, size)) ->
  exists l, ps_log (snd (seed_rand P seed_file s))
            = ps_log (snd (seed_select P seed_file s)) ++ l
            /\ loads l = [(seed, size)].
Proof.
  intros H. unfold seed_rand, bind.
  destruct (seed_select P seed_file s) as [o s1]. cbn in H. subst o. cbn.
  run_prog. repeat split_cond; log_suffix; reflexivity.
Qed.

(** Once selection has returned a source, the result of [seed_rand] is
    decided by RAND_load_file alone: 0 when it returns the requested size,
    1 otherwise. *)
Lemma seed_rand_result (seed_file : string) (s : pstate P) (seed : string) (size : Z) :
  fst (seed_select P seed_file s) = Returned (Some (seed, size)) ->
  let w := ps_world (snd (seed_select P seed_file s)) in
  fst (seed_rand P seed_file s)
  = Returned (if fst (RAND_load_file P seed size w) =? size then 0 else 1).
Proof.
  intros H. unfold seed_rand, bind.
  destruct (seed_select P seed_file s) as [o s1]. cbn in H. subst o. cbn.
  run_prog.
  destruct (fst (RAND_load_file P seed size (ps_world s1)) =? size); cbn;
    [destruct (verbose (ps_args s1)) |]; reflexivity.
Qed.

(** C10 (as amended): for an accessible seed path that is not a regular
    file the size test still runs on the same lstat result.  A size of at
    least 32 that fits an [int] (at most 2^31 - 1) becomes the read size
    asked of the entropy device; with a size below 32 unlink is called on
    the path twice. *)
Theorem C10_not_regular_size_test (seed_file : string) (s : pstate P) (seed_stat : stat) :
  access P seed_file (Z.lor R_OK W_OK) (ps_world s) = 0 ->
  lstat P seed_file (ps_world s) = Some seed_stat ->
  S_ISREG (st_mode seed_stat) = false ->
  let r := seed_select P seed_file s in
  (ENTROPY_SIZE <= st_size seed_stat <= INT_MAX ->
   fst r = Returned (Some (ENTROPY_SOURCE, st_size seed_stat))
   /\ exists l, ps_log (snd (seed_rand P seed_file s)) = ps_log s ++ l
               /\ loads l = [(ENTROPY_SOURCE, st_size seed_stat)])
  /\ (st_size seed_stat < ENTROPY_SIZE ->
      fst r = Returned (Some (ENTROPY_SOURCE, ENTROPY_SIZE))
      /\ exists l, ps_log (snd r) = ps_log s ++ l
                  /\ unlinked l = [seed_file; seed_file]).
Proof.
  intros Ha Hl Hreg r. subst r. unfold ENTROPY_SIZE. split.
  - intros Hsz.
    assert (Hsel : fst (seed_select P seed_file s)
                   = Returned (Some (ENTROPY_SOURCE, st_size seed_stat))).
    { assert (E : (st_size seed_stat <? 32) = false) by (apply Z.ltb_ge; lia).
      run_prog. cbn in Ha. rewrite Ha. cbn. rewrite Hl. cbn. rewrite Hreg. cbn.
      split_cond; rewrite E; cbn; rewrite to_int_id by lia; reflexivity. }
    split; [exact Hsel |].
    destruct (seed_rand_loads seed_file s _ _ Hsel) as (l2 & Hl2 & Hloads).
    destruct (seed_select_frame seed_file s) as (_ & l1 & Hl1 & _ & Hnl & _).
    exists (l1 ++ l2). rewrite Hl2, Hl1, app_assoc. split; [reflexivity |].
    unfold loads, calls_of in *. rewrite !flat_map_app, Hnl. exact Hloads.
  - intros Hsz. run_prog. cbn in Ha. rewrite Ha. cbn. rewrite Hl. cbn. rewrite Hreg. cbn.
    apply Z.ltb_lt in Hsz.
    destruct (fst (unlink P seed_file (ps_world s)) =? -1); cbn;
      rewrite Hsz; cbn; split_cond; (split; [reflexivity |]);
      log_suffix; reflexivity.
Qed.

End Selection.

(** ** The whole run *)

Section Main.
Context (P : Platform).

(** The getopt loop touches neither the world nor [args.bytes]; it writes
    to stderr only, and ends the process, with status 0, exactly when
    getopt_long returns ['h'] or ['?']. *)
Lemma args_parse_opts_spec (argv0 : string) (rets : list Z) (s : pstate P) :
  let r := args_parse_opts P argv0 rets s in
  ps_world (snd r) = ps_world s
  /\ bytes (ps_args (snd r)) = bytes (ps_args s)
  /\ (exists l, ps_log (snd r) = ps_log s ++ l
               /\ stdout_of l = [] /\ calls_of l = [])
  /\ (if help_requested rets
      then fst r = Exited EXIT_SUCCESS
      else fst r = Returned tt).
Proof.
  revert s. induction rets as [| c rest IH]; intros s; cbn.
  - repeat split. exists []. rewrite app_nil_r. auto.
  - unfold bind at 1.
    destruct (c =? 120) eqn:Ex; [| destruct (c =? 118) eqn:Ev;
      [| destruct ((c =? 104) || (c =? 63)) eqn:Eh ]].
    + apply Z.eqb_eq in Ex. subst c. run_prog.
      match goal with |- context [args_parse_opts P argv0 rest ?s1] =>
        destruct (IH s1) as (Hw & Hb & (l & Hl & Ho & Hc) & Hr) end.
      cbn in *. repeat split; auto. exists l. auto.
    + apply Z.eqb_eq in Ev. subst c. run_prog.
      match goal with |- context [args_parse_opts P argv0 rest ?s1] =>
        destruct (IH s1) as (Hw & Hb & (l & Hl & Ho & Hc) & Hr) end.
      cbn in *. repeat split; auto. exists l. auto.
    + run_prog. repeat split. log_suffix. auto.
    + run_prog.
      match goal with |- context [args_parse_opts P argv0 rest ?s1] =>
        destruct (IH s1) as (Hw & Hb & (l & Hl & Ho & Hc) & Hr) end.
      cbn in *. repeat split; auto.
      eexists. rewrite Hl, <- app_assoc. split; [reflexivity |].
      cbn. auto.
Qed.

(** [args_parse] leaves the world alone and writes to stderr only.  It
    exits with status 0 when getopt_long reports help or an unknown option,
    with status 1 when there is not exactly one operand left, and otherwise
    stores the [strtol] value of the operand, converted to [size_t]. *)
Lemma args_parse_spec (argv : list string) (s : pstate P) :
  let g := getopt_long P argv in
  let optind := snd (fst g) in
  let r := args_parse P argv s in
  ps_world (snd r) = ps_world s
  /\ (exists l, ps_log (snd r) = ps_log s ++ l
               /\ stdout_of l = [] /\ calls_of l = [])
  /\ (if help_requested (fst (fst g))
      then fst r = Exited EXIT_SUCCESS
           /\ bytes (ps_args (snd r)) = bytes (ps_args s)
      else if Z.of_nat (List.length argv) =? optind + 1
           then fst r = Returned tt
                /\ bytes (ps_args (snd r))
                   = to_size_t (strtol (nth (Z.to_nat optind) (snd g) ""))
           else fst r = Exited EXIT_FAILURE).
Proof.
  cbn zeta. unfold args_parse. cbn zeta. unfold bind.
  pose proof (args_parse_opts_spec (nth 0 (snd (getopt_long P argv)) "")
                (fst (fst (getopt_long P argv))) s) as H.
  cbn zeta in H.
  destruct (args_parse_opts P (nth 0 (snd (getopt_long P argv)) "")
              (fst (fst (getopt_long P argv))) s) as [o s1].
  cbn [fst snd] in H. destruct H as (Hw & Hb & (l & Hl & Ho & Hc) & Hr).
  destruct (help_requested (fst (fst (getopt_long P argv)))).
  - subst o. cbn. repeat split; auto. exists l. auto.
  - subst o.
    destruct (Z.of_nat (List.length argv) =? snd (fst (getopt_long P argv)) + 1);
      run_prog.
    + repeat split; auto. exists l. auto.
    + repeat split; auto. eexists. rewrite Hl, <- app_assoc.
      split; [reflexivity |]. unfold stdout_of, calls_of in *.
      rewrite !flat_map_app, Ho, Hc. auto.
Qed.

(** [args_sanity] returns 0 exactly for 1 <= bytes <= 1024; it prints to
    stderr at most. *)
Lemma args_sanity_spec (s : pstate P) :
  let r := args_sanity P s in
  ps_world (snd r) = ps_world s
  /\ ps_args (snd r) = ps_args s
  /\ (exists l, ps_log (snd r) = ps_log s ++ l
               /\ stdout_of l = [] /\ calls_of l = [])
  /\ fst r = Returned (if (1 <=? bytes (ps_args s)) && (bytes (ps_args s) <=? 1024)
                       then 0 else 1).
Proof.
  run_prog.
  destruct ((1 <=? bytes (ps_args s)) && (bytes (ps_args s) <=? 1024)) eqn:E.
  - apply andb_true_iff in E. destruct E as [E1 E2].
    apply Z.leb_le in E1, E2.
    replace (bytes (ps_args s) =? 9223372036854775808) with false
      by (symmetry; apply Z.eqb_neq; lia).
    replace (bytes (ps_args s) =? 9223372036854775807) with false
      by (symmetry; apply Z.eqb_neq; lia).
    replace (bytes (ps_args s) >? 1024) with false
      by (symmetry; rewrite Z.gtb_ltb; apply Z.ltb_ge; lia).
    replace (bytes (ps_args s) <=? 0) with false
      by (symmetry; apply Z.leb_gt; lia).
    cbn. repeat split. exists []. rewrite app_nil_r. auto.
  - assert (H : (bytes (ps_args s) >? 1024) || (bytes (ps_args s) <=? 0) = true).
    { apply andb_false_iff in E. apply orb_true_iff.
      destruct E as [E | E]; [right | left].
      - apply Z.leb_gt in E. apply Z.leb_le. lia.
      - apply Z.leb_gt in E. rewrite Z.gtb_ltb. apply Z.ltb_lt. lia. }
    rewrite <- !orb_assoc, H, !orb_true_r. cbn.
    repeat split. log_suffix. auto.
Qed.

(** [seed_rand] returns; it prints nothing on stdout, draws nothing and
    writes no seed file. *)
Lemma seed_rand_spec (seed_file : string) (s : pstate P) :
  let r := seed_rand P seed_file s in
  ps_args (snd r) = ps_args s
  /\ (exists l, ps_log (snd r) = ps_log s ++ l
               /\ stdout_of l = [] /\ draws l = [] /\ writes l = [])
  /\ exists c, fst r = Returned c.
Proof.
  run_prog.
  destruct (access P seed_file 6 (ps_world s) =? 0); cbn;
    [destruct (lstat P seed_file (ps_world s)) as [st|]; cbn |];
    repeat split_cond;
    (split; [reflexivity |]); (split; [log_suffix; auto | eauto]).
Qed.

Lemma store_length (dest src : list byte) :
  (List.length dest <= List.length (store dest src))%nat.
Proof.
  unfold store. rewrite length_app, length_skipn. lia.
Qed.

(** [get_rand] calls RAND_bytes once, with the size narrowed to [int], and
    returns NULL exactly when the result of that call is not 1. *)
Lemma get_rand_spec (dest : list byte) (size : Z) (s : pstate P) :
  let r := get_rand P dest size s in
  ps_args (snd r) = ps_args s
  /\ exists l rc,
      ps_log (snd r) = ps_log s ++ l
      /\ stdout_of l = [] /\ writes l = []
      /\ draws l = [(to_int size, rc)]
      /\ (if rc =? 1
          then exists buffer, fst r = Returned (Some buffer)
                              /\ (List.length dest <= List.length buffer)%nat
          else fst r = Returned None).
Proof.
  run_prog.
  destruct (verbose (ps_args s)); cbn;
    destruct (fst (fst (RAND_bytes P (to_int size) (ps_world s))) =? 1) eqn:E; cbn;
    (split; [reflexivity |]); rewrite <- ?app_assoc; cbn [app];
    eexists; eexists; (split; [reflexivity |]); cbn; rewrite E;
    repeat split; eauto using store_length.
Qed.

Lemma skipn_nth_cons (l : list byte) (i : nat) :
  (i < List.length l)%nat -> skipn i l = nth i l x00 :: skipn (S i) l.
Proof.
  revert i. induction l as [| b l IH]; intros i H; cbn in H; [lia |].
  destruct i as [| i]; [reflexivity |].
  cbn [skipn nth]. apply IH. lia.
Qed.

(** The output loop prints the cells [i .. i + n - 1] of the buffer, each
    as two hexadecimal digits or as itself, and does nothing else. *)
Lemma print_loop_spec (buffer : list byte) (n i : nat) (s : pstate P) :
  (i + n <= List.length buffer)%nat ->
  print_loop P buffer i n s
  = (Returned tt,
     mk_pstate P (ps_world s) (ps_args s)
       (ps_log s ++ map (fun b => EvStdout (if hex (ps_args s) then fmt_02x b else [b]))
                        (firstn n (skipn i buffer)))).
Proof.
  revert i s. induction n as [| n IH]; intros i s H.
  - cbn. rewrite app_nil_r. destruct s; reflexivity.
  - cbn [print_loop]. unfold bind at 1. unfold get_args at 1.
    unfold bind at 1.
    rewrite (skipn_nth_cons buffer i) by lia. cbn [firstn map].
    destruct (hex (ps_args s)) eqn:Eh; unfold printf, emit, logged; cbn [fst snd];
      rewrite IH by lia; cbn [ps_world ps_args ps_log]; rewrite Eh, <- app_assoc;
      reflexivity.
Qed.

(** On a path that fits, [seed_save] returns; it writes the seed file
    once, prints nothing on stdout, and its result is 1 exactly when
    RAND_write_file returned -1. *)
Lemma seed_save_spec (seed_file : string) (s : pstate P) :
  path_fits seed_file = true ->
  let r := seed_save P seed_file s in
  ps_args (snd r) = ps_args s
  /\ exists l b,
      ps_log (snd r) = ps_log s ++ l
      /\ stdout_of l = [] /\ draws l = []
      /\ writes l = [(seed_file, b)]
      /\ fst r = Returned (if b =? -1 then 1 else 0).
Proof.
  intros _. run_prog.
  destruct (opendir P (dirpart seed_file) (ps_world s)) as [| errno]; cbn;
    repeat split_cond; (split; [reflexivity |]);
    rewrite <- ?app_assoc; cbn [app];
    eexists; eexists; (split; [reflexivity |]); cbn;
    repeat split;
    match goal with
    | H : (?b =? -1) = _ |- context [?b =? -1] => rewrite H; reflexivity
    end.
Qed.

(** The shapes a run can take: ended by the argument parser (help, or a
    rejected command line), by a failed seeding, by a failed draw, or
    completed with the output followed by the attempt to save the seed. *)
Lemma main_cases (argv : list string) (w : world P) :
  let g := getopt_long P argv in
  let optind := snd (fst g) in
  let operand := nth (Z.to_nat optind) (snd g) "" in
  let r := run P argv w in
  let a := ps_args (snd r) in
  let log := ps_log (snd r) in
  (help_requested (fst (fst g)) = true
   /\ fst r = Exited EXIT_SUCCESS /\ bytes a = 0
   /\ stdout_of log = [] /\ calls_of log = [])
  \/ (help_requested (fst (fst g)) = false
      /\ ~ (Z.of_nat (List.length argv) = optind + 1
            /\ 1 <= to_size_t (strtol operand) <= 1024)
      /\ fst r = Exited EXIT_FAILURE
      /\ stdout_of log = [] /\ calls_of log = [])
  \/ (help_requested (fst (fst g)) = false
      /\ Z.of_nat (List.length argv) = optind + 1
      /\ bytes a = to_size_t (strtol operand)
      /\ 1 <= bytes a <= 1024
      /\ ((fst r = Exited EXIT_FAILURE
           /\ stdout_of log = [] /\ draws log = [] /\ writes log = [])
          \/ (fst r = Exited EXIT_FAILURE
              /\ stdout_of log = [] /\ writes log = []
              /\ exists rc, draws log = [(bytes a, rc)] /\ rc <> 1)
          \/ (fst r = Exited EXIT_SUCCESS
              /\ exists pre buffer post b,
                  log = pre ++ output_events a (firstn (Z.to_nat (bytes a)) buffer)
                            ++ post
                  /\ (Z.to_nat (bytes a) <= List.length buffer)%nat
                  /\ stdout_of pre = [] /\ draws pre = [(bytes a, 1)]
                  /\ writes pre = []
                  /\ stdout_of post = [] /\ draws post = []
                  /\ writes post = [(SEED_FILE, b)]))).
Proof.
  intros g optind operand r a log. subst g optind operand a log.
  assert (Er : r = run P argv w) by reflexivity. clearbody r. revert Er.
  unfold run, main. cbn zeta. unfold bind.
  (* args_parse *)
  generalize (args_parse_spec argv (start P w)). cbn zeta.
  destruct (args_parse P argv (start P w)) as [o1 s1]. cbn [fst snd].
  intros (_ & (l1 & Hl1 & Ho1 & Hc1) & Hr1). cbn in Hl1.
  pose proof (no_calls_no_draws _ Hc1) as Hd1.
  pose proof (no_calls_no_writes _ Hc1) as Hw1.
  destruct (help_requested (fst (fst (getopt_long P argv)))).
  { destruct Hr1 as [-> Hb]. intros ->. left. cbn. rewrite Hl1. auto. }
  destruct (Z.of_nat (List.length argv) =? snd (fst (getopt_long P argv)) + 1) eqn:Ec.
  2:{ subst o1. intros ->. right. left. cbn. rewrite Hl1.
      apply Z.eqb_neq in Ec. repeat split; auto. tauto. }
  apply Z.eqb_eq in Ec. destruct Hr1 as [-> Hb1].
  (* args_sanity *)
  generalize (args_sanity_spec s1). cbn zeta.
  destruct (args_sanity P s1) as [o2 s2]. cbn [fst snd].
  intros (_ & Ha2 & (l2 & Hl2 & Ho2 & Hc2) & ->).
  pose proof (no_calls_no_draws _ Hc2) as Hd2.
  pose proof (no_calls_no_writes _ Hc2) as Hw2.
  destruct ((1 <=? bytes (ps_args s1)) && (bytes (ps_args s1) <=? 1024)) eqn:Er.
  2:{ intros ->. right. left. cbn. rewrite Hl2, Hl1. autorewrite with log.
      rewrite Ho1, Ho2, Hc1, Hc2. repeat split; auto.
      intros [_ Hrange]. rewrite <- Hb1 in Hrange.
      apply andb_false_iff in Er. destruct Er as [Er | Er]; apply Z.leb_gt in Er; lia. }
  apply andb_true_iff in Er. destruct Er as [Er1 Er2]. apply Z.leb_le in Er1, Er2.
  cbn [negb Z.eqb]. unfold ret at 1.
  (* seed_rand *)
  generalize (seed_rand_spec SEED_FILE s2). cbn zeta.
  destruct (seed_rand P SEED_FILE s2) as [o3 s3]. cbn [fst snd].
  intros (Ha3 & (l3 & Hl3 & Ho3 & Hd3 & Hw3) & (c & ->)).
  assert (Hargs3 : ps_args s3 = ps_args s1) by congruence.
  destruct (c =? 0).
  2:{ intros ->. right. right. cbn. rewrite Hargs3, Hl3, Hl2, Hl1.
      autorewrite with log.
      rewrite Ho1, Ho2, Ho3, Hd1, Hd2, Hd3, Hw1, Hw2, Hw3.
      repeat split; auto. }
  cbn [negb]. unfold ret at 1, get_args at 1.
  (* get_rand *)
  generalize (get_rand_spec (repeat x00 (Z.to_nat MAX_BYTES)) (bytes (ps_args s3)) s3).
  cbn zeta.
  destruct (get_rand P (repeat x00 (Z.to_nat MAX_BYTES)) (bytes (ps_args s3)) s3)
    as [o4 s4]. cbn [fst snd].
  intros (Ha4 & l4 & rc & Hl4 & Ho4 & Hw4 & Hd4 & Hr4).
  assert (Hargs4 : ps_args s4 = ps_args s1) by congruence.
  rewrite Hargs3, to_int_id in Hd4 by (unfold INT_MAX; lia).
  destruct (rc =? 1) eqn:Erc.
  2:{ subst o4. intros ->. right. right. cbn. rewrite Hargs4, Hl4, Hl3, Hl2, Hl1.
      autorewrite with log.
      rewrite Ho1, Ho2, Ho3, Ho4, Hd1, Hd2, Hd3, Hd4, Hw1, Hw2, Hw3, Hw4.
      repeat split; auto. right. left. repeat split; auto.
      exists rc. split; [reflexivity |]. apply Z.eqb_neq. exact Erc. }
  apply Z.eqb_eq in Erc. subst rc.
  destruct Hr4 as (buffer & -> & Hlen). rewrite repeat_length in Hlen.
  unfold get_args at 1.
  (* the output loop *)
  assert (Hfit : (Z.to_nat (bytes (ps_args s4)) <= List.length buffer)%nat).
  { rewrite Hargs4. unfold MAX_BYTES in Hlen. lia. }
  rewrite print_loop_spec by (cbn; exact Hfit).
  cbn [skipn].
  (* the newline *)
  match goal with
  | |- context [(if hex (ps_args s4) then _ else _) ?st] =>
      assert (E5 : (if hex (ps_args s4) then printf P [newline] else ret P tt) st
                   = (Returned tt,
                      mk_pstate P (ps_world s4) (ps_args s4)
                        (ps_log s4
                         ++ output_events (ps_args s4)
                              (firstn (Z.to_nat (bytes (ps_args s4))) buffer))))
  end.
  { unfold output_events.
    destruct (hex (ps_args s4)); unfold printf, emit, logged, ret; cbn;
      rewrite ?app_nil_r, <- ?app_assoc; reflexivity. }
  rewrite E5. clear E5.
  (* seed_save *)
  match goal with
  | |- context [seed_save P SEED_FILE ?st] =>
      generalize (seed_save_spec SEED_FILE st eq_refl); cbn zeta;
      destruct (seed_save P SEED_FILE st) as [o6 s6]
  end.
  cbn [fst snd ps_args ps_log].
  intros (Ha6 & l6 & b & Hl6 & Ho6 & Hd6 & Hw6 & ->). intros ->.
  right. right. cbn. rewrite Ha6, Hargs4.
  repeat split; auto. right. right. split; [reflexivity |].
  exists (l1 ++ l2 ++ l3 ++ l4), buffer, l6, b.
  rewrite Hl6, Hl4, Hl3, Hl2, Hl1, Hargs4. autorewrite with log.
  rewrite Ho1, Ho2, Ho3, Ho4, Hd1, Hd2, Hd3, Hd4, Hw1, Hw2, Hw3, Hw4.
  rewrite Hargs4 in Hfit.
  repeat split; auto. rewrite <- !app_assoc. reflexivity.
Qed.

Lemma fmt_02x_digits (b : byte) :
  List.length (fmt_02x b) = 2%nat /\ forallb is_lower_hex (fmt_02x b) = true.
Proof. destruct b; split; reflexivity. Qed.

Lemma hex_output (bs : list byte) :
  List.length (flat_map fmt_02x bs) = (2 * List.length bs)%nat
  /\ forallb is_lower_hex (flat_map fmt_02x bs) = true.
Proof.
  induction bs as [| b bs [IHl IHh]]; [split; reflexivity |].
  destruct (fmt_02x_digits b) as [Hl Hh].
  cbn [flat_map]. rewrite length_app, forallb_app, Hl, Hh, IHl, IHh.
  cbn [List.length]. split; [lia | reflexivity].
Qed.

Lemma output_events_stdout (a : args_t) (bs : list byte) :
  stdout_of (output_events a bs) = rendered a bs.
Proof.
  unfold output_events, rendered. rewrite stdout_of_app.
  assert (H : stdout_of (map (fun b => EvStdout (if hex a then fmt_02x b else [b])) bs)
              = flat_map (fun b => if hex a then fmt_02x b else [b]) bs).
  { unfold stdout_of. induction bs as [| b bs IH]; [reflexivity |].
    cbn [map flat_map]. rewrite IH. reflexivity. }
  rewrite H. destruct (hex a).
  - reflexivity.
  - cbn [stdout_of flat_map]. rewrite app_nil_r.
    induction bs as [| b bs IH]; [reflexivity |].
    cbn [flat_map app]. f_equal. apply IH.
    unfold stdout_of. clear. induction bs as [| b bs IH]; [reflexivity |].
    cbn [map flat_map]. rewrite IH. reflexivity.
Qed.

(** C2: on a run that ends with success status with [args.bytes] in
    [1, 1024], stdout holds exactly [args.bytes] bytes in raw mode (no
    newline is added), and in hex mode exactly [2 * args.bytes] lowercase
    hexadecimal digits, two per byte, followed by one newline. *)
Theorem C2_output_length (argv : list string) (w : world P) :
  let r := run P argv w in
  let a := ps_args (snd r) in
  let out := stdout_of (ps_log (snd r)) in
  exit_status (fst r) = EXIT_SUCCESS ->
  1 <= bytes a <= MAX_BYTES ->
  exists drawn : list byte,
    Z.of_nat (List.length drawn) = bytes a
    /\ if hex a
       then out = flat_map fmt_02x drawn ++ [newline]
            /\ Z.of_nat (List.length (flat_map fmt_02x drawn)) = 2 * bytes a
            /\ forallb is_lower_hex (flat_map fmt_02x drawn) = true
       else out = drawn.
Proof.
  intros r a out Hexit Hrange. subst a out. unfold MAX_BYTES in Hrange.
  destruct (main_cases argv w) as [H | [H | H]]; fold r in H.
  - destruct H as (_ & _ & Hb & _). lia.
  - destruct H as (_ & _ & He & _). rewrite He in Hexit. discriminate.
  - destruct H as (_ & _ & _ & _ & [H | [H | H]]);
      try (destruct H as (He & _); rewrite He in Hexit; discriminate).
    destruct H as (_ & pre & buffer & post & b & Hlog & Hfit & Hpre & _ & _ & Hpost & _).
    exists (firstn (Z.to_nat (bytes (ps_args (snd r)))) buffer).
    assert (Hlen : Z.of_nat (List.length (firstn (Z.to_nat (bytes (ps_args (snd r)))) buffer))
                   = bytes (ps_args (snd r))).
    { rewrite length_firstn. lia. }
    split; [exact Hlen |].
    rewrite Hlog. autorewrite with log. rewrite Hpre, Hpost, output_events_stdout.
    unfold rendered. cbn [app].
    destruct (hex (ps_args (snd r))).
    + rewrite app_nil_r.
      destruct (hex_output (firstn (Z.to_nat (bytes (ps_args (snd r)))) buffer))
        as [Hl Hh].
      repeat split; auto. rewrite Hl. lia.
    + apply app_nil_r.
Qed.

(** C3: when RAND_bytes reports failure (a result other than 1), nothing
    at all is written to stdout and the process exits with [EXIT_FAILURE]. *)
Theorem C3_failed_draw (argv : list string) (w : world P) (num rc : Z) :
  let r := run P argv w in
  In (num, rc) (draws (ps_log (snd r))) ->
  rc <> 1 ->
  stdout_of (ps_log (snd r)) = []
  /\ fst r = Exited EXIT_FAILURE
  /\ exit_status (fst r) <> EXIT_SUCCESS.
Proof.
  intros r Hin Hrc.
  destruct (main_cases argv w) as [H | [H | H]]; fold r in H.
  - destruct H as (_ & _ & _ & _ & Hc).
    rewrite (no_calls_no_draws _ Hc) in Hin. contradiction.
  - destruct H as (_ & _ & _ & _ & Hc).
    rewrite (no_calls_no_draws _ Hc) in Hin. contradiction.
  - destruct H as (_ & _ & _ & _ & [H | [H | H]]).
    + destruct H as (_ & _ & Hd & _). rewrite Hd in Hin. contradiction.
    + destruct H as (He & Ho & _). rewrite He. repeat split; auto. discriminate.
    + destruct H as (_ & pre & buffer & post & b & Hlog & _ & _ & Hd1 & _ & _ & Hd2 & _).
      rewrite Hlog in Hin. autorewrite with log in Hin.
      unfold draws at 2 in Hin. rewrite output_events_calls, Hd1, Hd2 in Hin.
      cbn in Hin. destruct Hin as [Heq | []]. congruence.
Qed.

(** C4: once RAND_write_file has been called, whatever it returned (-1 on
    failure), the process exits with [EXIT_SUCCESS]; the call comes after
    all output, so stdout is what had been printed before the attempt. *)
Theorem C4_persist_failure (argv : list string) (w : world P) (path : string) (b : Z) :
  let r := run P argv w in
  let log := ps_log (snd r) in
  In (path, b) (writes log) ->
  fst r = Exited EXIT_SUCCESS
  /\ exists pre post,
      log = pre ++ post
      /\ writes pre = [] /\ writes post = [(SEED_FILE, b)]
      /\ stdout_of post = []
      /\ stdout_of log = stdout_of pre
      /\ exists drawn, Z.of_nat (List.length drawn) = bytes (ps_args (snd r))
                       /\ stdout_of pre = rendered (ps_args (snd r)) drawn.
Proof.
  intros r log Hin. subst log.
  destruct (main_cases argv w) as [H | [H | H]]; fold r in H.
  - destruct H as (_ & _ & _ & _ & Hc).
    rewrite (no_calls_no_writes _ Hc) in Hin. contradiction.
  - destruct H as (_ & _ & _ & _ & Hc).
    rewrite (no_calls_no_writes _ Hc) in Hin. contradiction.
  - destruct H as (_ & _ & _ & Hrange & [H | [H | H]]).
    + destruct H as (_ & _ & _ & Hw). rewrite Hw in Hin. contradiction.
    + destruct H as (_ & _ & Hw & _). rewrite Hw in Hin. contradiction.
    + destruct H as (He & pre & buffer & post & b' & Hlog & Hfit & Ho1 & _ & Hw1
                     & Ho2 & _ & Hw2).
      split; [exact He |].
      assert (Hb : b' = b).
      { rewrite Hlog in Hin. autorewrite with log in Hin.
        unfold writes at 2 in Hin. rewrite output_events_calls, Hw1, Hw2 in Hin.
        cbn in Hin. destruct Hin as [Heq | []]. congruence. }
      subst b'.
      exists (pre ++ output_events (ps_args (snd r))
                       (firstn (Z.to_nat (bytes (ps_args (snd r)))) buffer)), post.
      rewrite Hlog. autorewrite with log.
      unfold writes at 2. rewrite output_events_calls, Hw1, Ho1, Ho2.
      rewrite <- app_assoc, ?app_nil_r. repeat split; auto.
      eexists. split; [| cbn [app]; apply output_events_stdout].
      rewrite length_firstn. lia.
Qed.

Lemma clamp_long_range (z : Z) : LONG_MIN <= clamp_long z <= LONG_MAX.
Proof.
  unfold clamp_long, LONG_MIN, LONG_MAX.
  destruct (z <? -9223372036854775808) eqn:E1; [lia |].
  destruct (9223372036854775807 <? z) eqn:E2; [lia |].
  apply Z.ltb_ge in E1, E2. lia.
Qed.

Lemma strtol_range (s : string) : LONG_MIN <= strtol s <= LONG_MAX.
Proof.
  unfold strtol.
  repeat match goal with
         | |- context [match ?x with _ => _ end] => destruct x
         end; apply clamp_long_range.
Qed.

(** A [long] converted to [size_t] lies in [1, 1024] only if it did. *)
Lemma to_size_t_in_range (v : Z) :
  LONG_MIN <= v <= LONG_MAX -> 1 <= to_size_t v <= 1024 -> 1 <= v <= 1024.
Proof.
  unfold LONG_MIN, LONG_MAX, to_size_t. intros Hv H.
  destruct (Z.lt_ge_cases v 0) as [Hneg | Hpos].
  - assert (E : v mod 2 ^ 64 = v + 2 ^ 64).
    { symmetry. apply Z.mod_unique with (q := -1); lia. }
    rewrite E in H. lia.
  - rewrite Z.mod_small in H by lia. exact H.
Qed.

(** C9 (as amended): when getopt_long reports neither help nor an unknown
    option, and the value [strtol] reads from the operand is below 1 or
    above 1024 (or there is not exactly one operand), the process exits with
    [EXIT_FAILURE] and has made no platform call: no seed selection, no
    load, no draw. *)
Theorem C9_rejected_arguments (argv : list string) (w : world P) :
  let g := getopt_long P argv in
  let optind := snd (fst g) in
  let operand := nth (Z.to_nat optind) (snd g) "" in
  let r := run P argv w in
  help_requested (fst (fst g)) = false ->
  (Z.of_nat (List.length argv) = optind + 1 ->
   strtol operand < 1 \/ MAX_BYTES < strtol operand) ->
  fst r = Exited EXIT_FAILURE
  /\ stdout_of (ps_log (snd r)) = []
  /\ calls_of (ps_log (snd r)) = [].
Proof.
  intros g optind operand r Hhelp Hbad. unfold MAX_BYTES in Hbad.
  destruct (main_cases argv w) as [H | [H | H]];
    fold g in H; fold optind in H; fold operand in H; fold r in H.
  - destruct H as (Ht & _). congruence.
  - destruct H as (_ & _ & He & Ho & Hc). auto.
  - destruct H as (_ & Hargc & Hb & Hrange & _). exfalso.
    rewrite Hb in Hrange.
    apply to_size_t_in_range in Hrange; [| apply strtol_range].
    specialize (Hbad Hargc). lia.
Qed.

(** With help or an unknown option the process stops in the parser too,
    but with [EXIT_SUCCESS]. *)
Lemma help_exits_successfully (argv : list string) (w : world P) :
  let r := run P argv w in
  help_requested (fst (fst (getopt_long P argv))) = true ->
  fst r = Exited EXIT_SUCCESS
  /\ stdout_of (ps_log (snd r)) = []
  /\ calls_of (ps_log (snd r)) = [].
Proof.
  intros r Hhelp.
  destruct (main_cases argv w) as [H | [H | H]]; fold r in H.
  - destruct H as (_ & He & _ & Ho & Hc). auto.
  - destruct H as (Hf & _). congruence.
  - destruct H as (Hf & _). congruence.
Qed.

End Main.

(** ** Concrete runs on the simulated platform *)

(** The scenario of the specification: 16 bytes in hex mode with a valid
    64-byte seed file give 32 hexadecimal digits and a newline, and the
    seed file is rewritten. *)
Example hex_run_16 :
  let r := run Sim.platform ["rand"; "--hex"; "16"] Sim.good_seed in
  fst r = Exited EXIT_SUCCESS
  /\ List.length (stdout_of (ps_log (snd r))) = 33%nat
  /\ last (stdout_of (ps_log (snd r))) x00 = newline
  /\ forallb is_lower_hex (removelast (stdout_of (ps_log (snd r)))) = true
  /\ writes (ps_log (snd r)) = [(SEED_FILE, 1024)].
Proof. vm_compute. repeat split. Qed.

(** The size read back on the next run is the size the seed file was
    written with. *)
Example round_trip_run :
  let first_run := run Sim.platform ["rand"; "8"] (Sim.world_with None) in
  let next_run := run Sim.platform ["rand"; "8"] (ps_world (snd first_run)) in
  writes (ps_log (snd first_run)) = [(SEED_FILE, 1024)]
  /\ Sim.sim_lstat SEED_FILE (ps_world (snd first_run))
     = Some (mk_stat (Z.lor S_IFREG 384) 1024)
  /\ loads (ps_log (snd next_run)) = [(SEED_FILE, 1024)].
Proof. vm_compute. repeat split. Qed.

(** Help wins over a byte count that is out of range: status 0. *)
Example help_with_bad_count :
  let r := run Sim.platform ["rand"; "--help"; "0"] Sim.good_seed in
  fst r = Exited EXIT_SUCCESS /\ calls_of (ps_log (snd r)) = [].
Proof. vm_compute. repeat split. Qed.

(** C1, as stated, fails: with the seed file accessible and lstat failing,
    selection returns no source, no load is attempted and the process
    exits with [EXIT_FAILURE]. *)
Lemma C1_counterexample :
  let w := Sim.lstat_failing Sim.good_seed in
  let r := run Sim.platform ["rand"; "3"] w in
  access Sim.platform SEED_FILE (Z.lor R_OK W_OK) w = 0
  /\ lstat Sim.platform SEED_FILE w = None
  /\ fst (seed_select Sim.platform SEED_FILE (start Sim.platform w)) = Returned None
  /\ fst r = Exited EXIT_FAILURE
  /\ loads (ps_log (snd r)) = [].
Proof. vm_compute. repeat split. Qed.

(** C2 on a hex run of 16 bytes. *)
Lemma C2_witness :
  let r := run Sim.platform ["rand"; "--hex"; "16"] Sim.good_seed in
  let a := ps_args (snd r) in
  let out := stdout_of (ps_log (snd r)) in
  exists drawn : list byte,
    Z.of_nat (List.length drawn) = bytes a
    /\ if hex a
       then out = flat_map fmt_02x drawn ++ [newline]
            /\ Z.of_nat (List.length (flat_map fmt_02x drawn)) = 2 * bytes a
            /\ forallb is_lower_hex (flat_map fmt_02x drawn) = true
       else out = drawn.
Proof.
  apply (C2_output_length Sim.platform ["rand"; "--hex"; "16"] Sim.good_seed).
  - vm_compute. reflexivity.
  - vm_compute. split; discriminate.
Defined.

(** C3 on a generator that cannot deliver. *)
Lemma C3_witness :
  let r := run Sim.platform ["rand"; "3"] (Sim.exhausted Sim.good_seed) in
  stdout_of (ps_log (snd r)) = []
  /\ fst r = Exited EXIT_FAILURE
  /\ exit_status (fst r) <> EXIT_SUCCESS.
Proof.
  apply (C3_failed_draw Sim.platform ["rand"; "3"] (Sim.exhausted Sim.good_seed) 3 0).
  - vm_compute. left. reflexivity.
  - discriminate.
Defined.

(** C4 on a seed file that cannot be written. *)
Lemma C4_witness :
  let r := run Sim.platform ["rand"; "3"] (Sim.unwritable Sim.good_seed) in
  fst r = Exited EXIT_SUCCESS
  /\ stdout_of (ps_log (snd r)) = [x00; x01; x7f].
Proof.
  intros r.
  destruct (C4_persist_failure Sim.platform ["rand"; "3"] (Sim.unwritable Sim.good_seed)
              SEED_FILE (-1)) as (He & _).
  - vm_compute. left. reflexivity.
  - split; [exact He | vm_compute; reflexivity].
Defined.

(** C5 on a seed file of 10 bytes. *)
Lemma C5_witness :
  let s := start Sim.platform (Sim.world_with (Some (Sim.regular 10))) in
  let r := seed_select Sim.platform SEED_FILE s in
  fst r = Returned (Some (ENTROPY_SOURCE, ENTROPY_SIZE))
  /\ exists l, ps_log (snd r) = ps_log s ++ l /\ unlinked l = [SEED_FILE].
Proof.
  intros s r.
  destruct (C5_short_seed_file Sim.platform SEED_FILE s (mk_stat (Z.lor S_IFREG 384) 10))
    as (Hsel & _ & l & Hl & Hu & _); try reflexivity.
  split; [exact Hsel |]. exists l. split; assumption.
Defined.

(** C6 on a directory at the seed path. *)
Lemma C6_witness :
  let s := start Sim.platform (Sim.world_with (Some Sim.directory)) in
  let r := seed_select Sim.platform SEED_FILE s in
  (exists size, fst r = Returned (Some (ENTROPY_SOURCE, size)))
  /\ exists l, ps_log (snd r) = ps_log s ++ l
               /\ hd_error (unlinked l) = Some SEED_FILE
               /\ In unlink_perror l.
Proof.
  intros s r.
  destruct (C6_not_regular Sim.platform SEED_FILE s (mk_stat (Z.lor S_IFDIR 488) 4096))
    as (Hsel & l & Hl & Hu & Hp); try reflexivity.
  split; [exact Hsel |]. exists l. repeat split; try assumption.
  apply Hp. reflexivity.
Defined.

(** C7 on a read-only seed file. *)
Lemma C7_witness :
  let s := start Sim.platform (Sim.world_with (Some (Sim.read_only 64))) in
  let r := seed_select Sim.platform SEED_FILE s in
  fst r = Returned (Some (ENTROPY_SOURCE, ENTROPY_SIZE))
  /\ ps_world (snd r) = ps_world s
  /\ unlinked (ps_log (snd r)) = [].
Proof.
  intros s r.
  destruct (C7_inaccessible Sim.platform SEED_FILE s) as (Hsel & Hw & l & Hl & _ & Hu).
  - vm_compute. discriminate.
  - split; [exact Hsel |]. split; [exact Hw |].
    fold r in Hl. rewrite Hl. exact Hu.
Defined.

(** C8: an accessible regular seed file of 2^32 + 40 bytes is selected,
    but the read size asked of RAND_load_file is 40, not the length of the
    file: the [off_t] size does not survive the assignment to [int size]. *)
Theorem C8_read_size_truncated :
  let w := Sim.world_with (Some (Sim.regular (2 ^ 32 + 40))) in
  let s := start Sim.platform w in
  access Sim.platform SEED_FILE (Z.lor R_OK W_OK) w = 0
  /\ lstat Sim.platform SEED_FILE w = Some (mk_stat (Z.lor S_IFREG 384) 4294967336)
  /\ S_ISREG (Z.lor S_IFREG 384) = true
  /\ fst (seed_select Sim.platform SEED_FILE s) = Returned (Some (SEED_FILE, 40))
  /\ loads (ps_log (snd (seed_rand Sim.platform SEED_FILE s))) = [(SEED_FILE, 40)].
Proof. vm_compute. repeat split. Qed.

(** C9 on a byte count of 2000. *)
Lemma C9_witness :
  let r := run Sim.platform ["rand"; "2000"] Sim.good_seed in
  fst r = Exited EXIT_FAILURE
  /\ stdout_of (ps_log (snd r)) = []
  /\ calls_of (ps_log (snd r)) = [].
Proof.
  apply (C9_rejected_arguments Sim.platform ["rand"; "2000"] Sim.good_seed).
  - reflexivity.
  - intros _. right. vm_compute. reflexivity.
Defined.

(** C9, as stated, fails: the byte count [12abc] is not a decimal integer,
    yet the run seeds, draws 12 bytes, prints them and exits with status 0. *)
Lemma C9_counterexample :
  let r := run Sim.platform ["rand"; "12abc"] Sim.good_seed in
  well_formed_decimal "12abc" = false
  /\ fst r = Exited EXIT_SUCCESS
  /\ loads (ps_log (snd r)) = [(SEED_FILE, 64)]
  /\ draws (ps_log (snd r)) = [(12, 1)]
  /\ List.length (stdout_of (ps_log (snd r))) = 12%nat.
Proof. vm_compute. repeat split. Qed.

(** C10 on a directory of 4096 bytes and on an empty fifo. *)
Lemma C10_witness :
  (let s := start Sim.platform (Sim.world_with (Some Sim.directory)) in
   fst (seed_select Sim.platform SEED_FILE s) = Returned (Some (ENTROPY_SOURCE, 4096)))
  /\ (let s := start Sim.platform (Sim.world_with (Some Sim.fifo)) in
      exists l, ps_log (snd (seed_select Sim.platform SEED_FILE s)) = ps_log s ++ l
                /\ unlinked l = [SEED_FILE; SEED_FILE]).
Proof.
  split; intros s.
  - pose proof (C10_not_regular_size_test Sim.platform SEED_FILE s
                  (mk_stat (Z.lor S_IFDIR 488) 4096) eq_refl eq_refl eq_refl) as H.
    destruct H as [Hbig _]. apply Hbig. vm_compute. split; discriminate.
  - pose proof (C10_not_regular_size_test Sim.platform SEED_FILE s
                  (mk_stat (Z.lor 4096 438) 0) eq_refl eq_refl eq_refl) as H.
    destruct H as [_ Hsmall]. apply Hsmall. reflexivity.
Defined.

(** C10, as stated, fails: a directory whose lstat size is 2^32 + 4096 is
    at least 32 bytes long, yet the read size asked of the entropy device
    is 4096, not that size. *)
Lemma C10_counterexample :
  let w := Sim.world_with (Some Sim.huge_directory) in
  let s := start Sim.platform w in
  access Sim.platform SEED_FILE (Z.lor R_OK W_OK) w = 0
  /\ lstat Sim.platform SEED_FILE w = Some (mk_stat (Z.lor S_IFDIR 488) 4294971392)
  /\ S_ISREG (Z.lor S_IFDIR 488) = false
  /\ ENTROPY_SIZE <= 4294971392
  /\ fst (seed_select Sim.platform SEED_FILE s) = Returned (Some (ENTROPY_SOURCE, 4096))
  /\ loads (ps_log (snd (seed_rand Sim.platform SEED_FILE s))) = [(ENTROPY_SOURCE, 4096)]
  /\ 4096 <> 4294971392.
Proof. vm_compute. repeat split; discriminate. Qed.

(** * Further properties of the program *)

(** ** seed_save *)

Section Saving.
Context (P : Platform).

Lemma last_slash_join (dir name : string) :
  last_slash name = None ->
  last_slash (dir ++ String "/" name)%string = Some (String.length dir).
Proof.
  intros Hn. induction dir as [| c dir IH]; cbn.
  - rewrite Hn. reflexivity.
  - rewrite IH. reflexivity.
Qed.

Lemma substring_prefix (a b : string) :
  substring 0 (String.length a) (a ++ b) = a.
Proof.
  induction a as [| c a IH]; cbn.
  - destruct b; reflexivity.
  - rewrite IH. reflexivity.
Qed.

(** X1: the directory [seed_save] repairs is the part of the path before
    its last slash: for a path [dir/name] that fits (a C string whose
    directory part is shorter than [PATH_MAX]) and a file name without a
    slash, the array [dirpart] holds [dir], which leaves room for its
    terminator. *)
Theorem dirpart_of_joined_path (dir name : string) :
  last_slash name = None ->
  path_fits (dir ++ String "/" name) = true ->
  dirpart (dir ++ String "/" name) = dir
  /\ Z.of_nat (String.length dir) < PATH_MAX.
Proof.
  intros Hn Hfit. unfold dirpart, path_fits in *.
  rewrite (last_slash_join dir name Hn) in *.
  apply andb_true_iff in Hfit. destruct Hfit as [Hlen _].
  apply Z.ltb_lt in Hlen. split; [apply substring_prefix | exact Hlen].
Qed.

(** X2: on a path that fits (a C string with a slash whose directory
    part is shorter than [PATH_MAX]), [seed_save] opens the parent
    directory, closes it again when that worked, creates it with mode 0750
    only when opendir failed with [ENOENT], and then calls RAND_write_file
    on the seed file exactly once, whatever the repair did; it returns 1
    exactly when that call returned -1 and never ends the process. *)
Theorem seed_save_calls (seed_file : string) (s : pstate P) :
  let dir := dirpart seed_file in
  let wr := RAND_write_file P seed_file (world_after_repair P dir (ps_world s)) in
  let r := seed_save P seed_file s in
  path_fits seed_file = true ->
  fst r = Returned (if fst wr =? -1 then 1 else 0)
  /\ ps_args (snd r) = ps_args s
  /\ ps_world (snd r) = (if fst wr =? -1 then snd (ERR_get_error P (snd wr)) else snd wr)
  /\ exists l,
      ps_log (snd r) = ps_log s ++ l
      /\ calls_of l
         = repair_calls P dir (ps_world s)
           ++ CWriteFile seed_file (fst wr)
           :: (if fst wr =? -1
               then [CErrGetError (fst (ERR_get_error P (snd wr)))]
               else []).
Proof.
  cbn zeta. intros _. unfold world_after_repair, repair_calls. run_prog.
  destruct (opendir P (dirpart seed_file) (ps_world s)) as [| errno]; cbn;
    [| destruct (errno =? ENOENT); cbn; [split_cond |]];
    split_cond; try split_cond;
    repeat split; log_suffix; reflexivity.
Qed.

End Saving.

(** ** seed_rand *)

Section Seeding.
Context (P : Platform).

(** X3: the progress messages of [seed_load], [get_rand] and [seed_save]
    are tied to [args.verbose]: when the platform call succeeds (and, for
    [seed_save], the path fits and the parent directory could be opened)
    each of them prints exactly one message on stderr in verbose mode and
    none otherwise. *)
Theorem diagnostics_only_when_verbose (s : pstate P) :
  let said := if verbose (ps_args s) then 1%nat else 0%nat in
  (forall seed size,
      fst (RAND_load_file P seed size (ps_world s)) = size ->
      exists l, ps_log (snd (seed_load P seed size s)) = ps_log s ++ l
                /\ List.length (diagnostics l) = said)
  /\ (forall dest size,
         fst (fst (RAND_bytes P (to_int size) (ps_world s))) = 1 ->
         exists l, ps_log (snd (get_rand P dest size s)) = ps_log s ++ l
                   /\ List.length (diagnostics l) = said)
  /\ (forall seed_file,
         path_fits seed_file = true ->
         opendir P (dirpart seed_file) (ps_world s) = DirOpened ->
         fst (RAND_write_file P seed_file (ps_world s)) <> -1 ->
         exists l, ps_log (snd (seed_save P seed_file s)) = ps_log s ++ l
                   /\ List.length (diagnostics l) = said).
Proof.
  cbn zeta. repeat split.
  - intros seed size H. run_prog. rewrite H, Z.eqb_refl. cbn.
    destruct (verbose (ps_args s)); cbn; log_suffix; reflexivity.
  - intros dest size H. run_prog.
    destruct (verbose (ps_args s)); cbn; rewrite H; cbn; log_suffix; reflexivity.
  - intros seed_file _ Hd Hw. run_prog. rewrite Hd. cbn.
    apply Z.eqb_neq in Hw. rewrite Hw. cbn.
    destruct (verbose (ps_args s)); cbn; log_suffix; reflexivity.
Qed.

(** X4: [seed_rand] always returns 0 or 1, and it returns 0 exactly when
    selection settled on a source and RAND_load_file, called in the world
    selection left, returned the requested size; a short (or long) read is
    a failure. *)
Theorem seed_rand_succeeds_iff (seed_file : string) (s : pstate P) :
  (fst (seed_rand P seed_file s) = Returned 0
   \/ fst (seed_rand P seed_file s) = Returned 1)
  /\ (fst (seed_rand P seed_file s) = Returned 0 <->
      exists seed size,
        fst (seed_select P seed_file s) = Returned (Some (seed, size))
        /\ fst (RAND_load_file P seed size
                  (ps_world (snd (seed_select P seed_file s)))) = size).
Proof.
  destruct (seed_select_cases P seed_file s) as [(Ha & Hl & Hn) | (seed & size & Hsel & _)].
  - destruct (seed_rand_lstat_failure P seed_file s Ha Hl) as [Hr _].
    split; [right; exact Hr |]. rewrite Hr. split; [discriminate |].
    intros (seed & size & Hsel & _). rewrite Hn in Hsel. discriminate.
  - pose proof (seed_rand_result P seed_file s seed size Hsel) as Hr.
    cbn zeta in Hr. rewrite Hr.
    destruct (fst (RAND_load_file P seed size
                     (ps_world (snd (seed_select P seed_file s)))) =? size) eqn:E.
    + split; [left; reflexivity |]. split; [| reflexivity].
      intros _. exists seed, size. apply Z.eqb_eq in E. auto.
    + split; [right; reflexivity |]. split; [discriminate |].
      intros (seed' & size' & Hsel' & Hld).
      rewrite Hsel in Hsel'. injection Hsel' as <- <-.
      apply Z.eqb_neq in E. contradiction.
Qed.

(** X5: the seed file is used as the source only if it is valid: when
    selection returns a source other than the entropy device, that source
    is the seed file, it is accessible, lstat succeeded and reported a
    regular file of at least 32 bytes, and the read size is its size
    narrowed to [int]. *)
Theorem seed_file_used_only_if_valid
    (seed_file : string) (s : pstate P) (seed : string) (size : Z) :
  fst (seed_select P seed_file s) = Returned (Some (seed, size)) ->
  seed <> ENTROPY_SOURCE ->
  seed = seed_file
  /\ access P seed_file (Z.lor R_OK W_OK) (ps_world s) = 0
  /\ exists seed_stat,
      lstat P seed_file (ps_world s) = Some seed_stat
      /\ S_ISREG (st_mode seed_stat) = true
      /\ ENTROPY_SIZE <= st_size seed_stat
      /\ size = to_int (st_size seed_stat).
Proof.
  unfold ENTROPY_SIZE. run_prog.
  destruct (access P seed_file 6 (ps_world s) =? 0) eqn:Ea; cbn.
  2:{ intros H Hne. injection H as <- _. contradiction. }
  apply Z.eqb_eq in Ea.
  destruct (lstat P seed_file (ps_world s)) as [st |]; cbn; [| discriminate].
  destruct (S_ISREG (st_mode st)) eqn:Er; cbn.
  - destruct (st_size st <? 32) eqn:Es; cbn.
    + split_cond; intros H Hne; injection H as <- _; contradiction.
    + intros H Hne. injection H as <- <-. apply Z.ltb_ge in Es.
      repeat split; auto. exists st. auto.
  - split_cond; split_cond; try split_cond;
      intros H Hne; injection H as <- _; contradiction.
Qed.

(** X6: selection deletes nothing but an invalid seed file: every unlink
    it calls is on the seed path, there are at most two of them, and there
    is one only if the path is accessible and lstat reported something that
    is not a regular file or is shorter than 32 bytes; without an unlink
    the world is left as it was. *)
Theorem unlink_only_invalid_seed (seed_file : string) (s : pstate P) :
  let r := seed_select P seed_file s in
  exists l,
    ps_log (snd r) = ps_log s ++ l
    /\ Forall (eq seed_file) (unlinked l)
    /\ (List.length (unlinked l) <= 2)%nat
    /\ (unlinked l <> [] ->
        access P seed_file (Z.lor R_OK W_OK) (ps_world s) = 0
        /\ exists seed_stat,
            lstat P seed_file (ps_world s) = Some seed_stat
            /\ (S_ISREG (st_mode seed_stat) = false
                \/ st_size seed_stat < ENTROPY_SIZE))
    /\ (unlinked l = [] -> ps_world (snd r) = ps_world s).
Proof.
  unfold ENTROPY_SIZE. run_prog.
  assert (Hnone : forall (A B : Prop), ([] : list string) <> [] -> A /\ B)
    by (intros A B H; exfalso; apply H; reflexivity).
  destruct (access P seed_file 6 (ps_world s) =? 0) eqn:Ea; cbn.
  2:{ log_suffix. split; [constructor |]. split; [lia |]. split; [apply Hnone | reflexivity]. }
  apply Z.eqb_eq in Ea.
  destruct (lstat P seed_file (ps_world s)) as [st |]; cbn.
  2:{ log_suffix. split; [constructor |]. split; [lia |]. split; [apply Hnone | reflexivity]. }
  destruct (S_ISREG (st_mode st)) eqn:Er; cbn;
    destruct (st_size st <? 32) eqn:Es; cbn;
    repeat split_cond; log_suffix;
    (split; [repeat constructor |]); (split; [lia |]);
    (split;
     [ first [ apply Hnone
             | intros _; split; [exact Ea |]; exists st; split; [reflexivity |];
               first [ left; exact Er | right; apply Z.ltb_lt; exact Es ] ]
     | first [ reflexivity | discriminate ] ]).
Qed.

(** X7: whenever the size lstat reports fits an [int], the read size
    selection returns is at least [ENTROPY_SIZE] (32): the generator is
    never seeded from fewer bytes than that. *)
Theorem read_size_at_least_minimum
    (seed_file : string) (s : pstate P) (seed : string) (size : Z) :
  (forall seed_stat, lstat P seed_file (ps_world s) = Some seed_stat ->
                     st_size seed_stat <= INT_MAX) ->
  fst (seed_select P seed_file s) = Returned (Some (seed, size)) ->
  ENTROPY_SIZE <= size.
Proof.
  unfold ENTROPY_SIZE. intros Hfit. run_prog.
  destruct (access P seed_file 6 (ps_world s) =? 0); cbn.
  2:{ intros H. injection H as _ <-. lia. }
  destruct (lstat P seed_file (ps_world s)) as [st |]; cbn; [| discriminate].
  specialize (Hfit st eq_refl).
  destruct (st_size st <? 32) eqn:Es.
  - repeat split_cond; intros H; injection H as _ <-; lia.
  - apply Z.ltb_ge in Es.
    repeat split_cond; intros H; injection H as _ <-;
      rewrite to_int_id by lia; lia.
Qed.

(** X19: an accessible regular seed file whose size lies between 32 and
    [INT_MAX] is the source selection returns, with its own size as read
    size; selection unlinks nothing and leaves the world as it was. *)
Theorem valid_seed_file_is_read_whole
    (seed_file : string) (s : pstate P) (seed_stat : stat) :
  access P seed_file (Z.lor R_OK W_OK) (ps_world s) = 0 ->
  lstat P seed_file (ps_world s) = Some seed_stat ->
  S_ISREG (st_mode seed_stat) = true ->
  ENTROPY_SIZE <= st_size seed_stat <= INT_MAX ->
  let r := seed_select P seed_file s in
  fst r = Returned (Some (seed_file, st_size seed_stat))
  /\ ps_world (snd r) = ps_world s
  /\ exists l, ps_log (snd r) = ps_log s ++ l /\ unlinked l = [].
Proof.
  intros Ha Hl Hreg Hsz.
  pose proof (seed_select_regular P seed_file s seed_stat Ha Hl Hreg (proj1 Hsz)) as H.
  cbn zeta in *. rewrite to_int_id in H; [exact H |].
  unfold ENTROPY_SIZE in Hsz. lia.
Qed.

End Seeding.

(** ** get_rand and the error reports *)

Section Drawing.
Context (P : Platform).

Lemma store_exact (dest bs : list byte) :
  (List.length bs <= List.length dest)%nat ->
  List.length (store dest bs) = List.length dest
  /\ firstn (List.length bs) (store dest bs) = bs
  /\ skipn (List.length bs) (store dest bs) = skipn (List.length bs) dest.
Proof.
  intros H. unfold store. repeat split.
  - rewrite length_app, length_skipn. lia.
  - rewrite firstn_app, Nat.sub_diag, firstn_all. cbn. apply app_nil_r.
  - rewrite skipn_app, Nat.sub_diag, skipn_all. reflexivity.
Qed.

(** X8: when RAND_bytes reports success and stored the [size] bytes [bs],
    [get_rand] returns the destination buffer with [bs] in its first
    [size] cells, the cells behind them untouched and its length
    unchanged. *)
Theorem get_rand_fills_buffer
    (dest : list byte) (size : Z) (s : pstate P) (bs : list byte) :
  let dr := RAND_bytes P (to_int size) (ps_world s) in
  fst (fst dr) = 1 ->
  snd (fst dr) = bs ->
  Z.of_nat (List.length bs) = size ->
  size <= INT_MAX ->
  (List.length bs <= List.length dest)%nat ->
  exists buffer,
    fst (get_rand P dest size s) = Returned (Some buffer)
    /\ List.length buffer = List.length dest
    /\ firstn (List.length bs) buffer = bs
    /\ skipn (List.length bs) buffer = skipn (List.length bs) dest.
Proof.
  intros dr Hrc Hbs Hlen Hmax Hfit. subst dr.
  assert (Hid : to_int size = size) by (apply to_int_id; lia).
  exists (store dest bs).
  split; [| apply store_exact; exact Hfit].
  run_prog. rewrite Hid in *.
  destruct (verbose (ps_args s)); cbn; rewrite Hrc, Hbs; cbn;
    rewrite <- Hlen, Nat2Z.id, firstn_all; reflexivity.
Qed.

(** X9: a failed platform call is reported on stderr whatever
    [args.verbose] is: after a RAND_load_file that did not return the
    requested size, a RAND_bytes that did not return 1 or, in
    [seed_save] on a path that fits, a RAND_write_file that returned -1,
    the last event of the log is the message carrying the reason string of
    the error ERR_get_error returned. *)
Theorem failures_always_reported (s : pstate P) :
  (forall seed size,
      let ld := RAND_load_file P seed size (ps_world s) in
      fst ld <> size ->
      fst (seed_load P seed size s) = Returned 1
      /\ last (ps_log (snd (seed_load P seed size s))) (EvStdout [])
         = EvStderr ("RAND_load_file failed: "
                     ++ ERR_reason_error_string P (fst (ERR_get_error P (snd ld)))
                     ++ nl))
  /\ (forall dest size,
         let dr := RAND_bytes P (to_int size) (ps_world s) in
         fst (fst dr) <> 1 ->
         fst (get_rand P dest size s) = Returned None
         /\ last (ps_log (snd (get_rand P dest size s))) (EvStdout [])
            = EvStderr ("RAND_bytes failed: "
                        ++ ERR_reason_error_string P (fst (ERR_get_error P (snd dr)))
                        ++ nl))
  /\ (forall seed_file,
         let wr := RAND_write_file P seed_file
                     (world_after_repair P (dirpart seed_file) (ps_world s)) in
         path_fits seed_file = true ->
         fst wr = -1 ->
         fst (seed_save P seed_file s) = Returned 1
         /\ last (ps_log (snd (seed_save P seed_file s))) (EvStdout [])
            = EvStderr ("RAND_write_file failed: "
                        ++ ERR_reason_error_string P (fst (ERR_get_error P (snd wr)))
                        ++ nl)).
Proof.
  split; [| split]; cbn zeta;
    [ intros seed size H; split
    | intros dest size H; split
    | intros seed_file _ H; split ].
  - revert H. run_prog. intros H. apply Z.eqb_neq in H. rewrite H. reflexivity.
  - revert H. run_prog. intros H. apply Z.eqb_neq in H. rewrite H. cbn.
    rewrite last_last. reflexivity.
  - revert H. run_prog. intros H. apply Z.eqb_neq in H.
    destruct (verbose (ps_args s)); cbn; rewrite H; reflexivity.
  - revert H. run_prog. intros H. apply Z.eqb_neq in H.
    destruct (verbose (ps_args s)); cbn; rewrite H; cbn;
      rewrite last_last; reflexivity.
  - revert H. unfold world_after_repair. run_prog.
    destruct (opendir P (dirpart seed_file) (ps_world s)) as [| errno]; cbn;
      [| destruct (errno =? ENOENT); cbn; [split_cond |]];
      intros H; rewrite H; reflexivity.
  - revert H. unfold world_after_repair. run_prog.
    destruct (opendir P (dirpart seed_file) (ps_world s)) as [| errno]; cbn;
      [| destruct (errno =? ENOENT); cbn; [split_cond |]];
      intros H; rewrite H; cbn; rewrite last_last; reflexivity.
Qed.

End Drawing.


(** ** args_parse and args_sanity *)

Section Arguments.
Context (P : Platform).

(** Without help, the getopt loop returns, having switched on the flags
    whose option it met. *)
Lemma args_parse_opts_flags (argv0 : string) (rets : list Z) (s : pstate P) :
  help_requested rets = false ->
  let r := args_parse_opts P argv0 rets s in
  fst r = Returned tt
  /\ ps_world (snd r) = ps_world s
  /\ ps_args (snd r)
     = mk_args (existsb (fun c => c =? 120) rets || hex (ps_args s))
               (existsb (fun c => c =? 118) rets || verbose (ps_args s))
               (bytes (ps_args s)).
Proof.
  revert s. induction rets as [| c rest IH]; intros s Hh.
  - cbn. repeat split. destruct (ps_args s); reflexivity.
  - cbn in Hh. apply orb_false_iff in Hh. destruct Hh as [Hc Hrest].
    cbn [args_parse_opts existsb]. unfold bind at 1.
    destruct (c =? 120) eqn:Ex; [| destruct (c =? 118) eqn:Ev].
    + apply Z.eqb_eq in Ex. subst c. run_prog.
      match goal with |- context [args_parse_opts P argv0 rest ?s1] =>
        destruct (IH s1 Hrest) as (Hr & Hw & Ha) end.
      cbn [ps_world ps_args hex verbose bytes] in Hw, Ha.
      rewrite Hr, Hw, Ha, !orb_true_r. repeat split.
    + apply Z.eqb_eq in Ev. subst c. run_prog.
      match goal with |- context [args_parse_opts P argv0 rest ?s1] =>
        destruct (IH s1 Hrest) as (Hr & Hw & Ha) end.
      cbn [ps_world ps_args hex verbose bytes] in Hw, Ha.
      rewrite Hr, Hw, Ha, !orb_true_r. repeat split.
    + rewrite Hc. run_prog.
      match goal with |- context [args_parse_opts P argv0 rest ?s1] =>
        destruct (IH s1 Hrest) as (Hr & Hw & Ha) end.
      cbn [ps_world ps_args hex verbose bytes] in Hw, Ha.
      rewrite Hr, Hw, Ha. repeat split.
Qed.

(** With help, the getopt loop ends the process right after the usage
    line. *)
Lemma args_parse_opts_usage (argv0 : string) (rets : list Z) (s : pstate P) :
  help_requested rets = true ->
  let r := args_parse_opts P argv0 rets s in
  fst r = Exited EXIT_SUCCESS
  /\ last (ps_log (snd r)) (EvStdout []) = usage_line argv0.
Proof.
  revert s. induction rets as [| c rest IH]; intros s Hh; cbn in Hh; [discriminate |].
  cbn [args_parse_opts]. unfold bind at 1.
  destruct (c =? 120) eqn:Ex; [| destruct (c =? 118) eqn:Ev;
    [| destruct ((c =? 104) || (c =? 63)) eqn:Ec]].
  - apply Z.eqb_eq in Ex. subst c. run_prog. apply IH. exact Hh.
  - apply Z.eqb_eq in Ev. subst c. run_prog. apply IH. exact Hh.
  - run_prog. rewrite last_last. split; reflexivity.
  - run_prog. apply IH. exact Hh.
Qed.

(** X11: [args_sanity] returns 0 exactly when [args.bytes] lies in
    [1, 1024] and 1 otherwise; it changes neither the world nor [args],
    and 0 is rejected although the message speaks of "between 0 and
    1024". *)
Theorem args_sanity_accepts_iff (s : pstate P) :
  let r := args_sanity P s in
  (fst r = Returned 0 <-> 1 <= bytes (ps_args s) <= MAX_BYTES)
  /\ (fst r = Returned 0 \/ fst r = Returned 1)
  /\ ps_world (snd r) = ps_world s
  /\ ps_args (snd r) = ps_args s
  /\ (fst r = Returned 1 ->
      ps_log (snd r)
      = ps_log s ++ [EvStderr ("'bytes' must be between 0 and 1024" ++ nl)]).
Proof.
  cbn zeta. unfold MAX_BYTES.
  destruct (args_sanity_spec P s) as (Hw & Ha & _ & Hr). cbn zeta in Hr.
  rewrite Hr.
  destruct ((1 <=? bytes (ps_args s)) && (bytes (ps_args s) <=? 1024)) eqn:E.
  - apply andb_true_iff in E. destruct E as [E1 E2]. apply Z.leb_le in E1, E2.
    split; [split; [intros _; lia | reflexivity] |].
    split; [left; reflexivity |]. repeat split; auto. discriminate.
  - assert (Hout : ~ 1 <= bytes (ps_args s) <= 1024).
    { apply andb_false_iff in E.
      destruct E as [E | E]; apply Z.leb_gt in E; lia. }
    split; [split; [discriminate | intros H; contradiction] |].
    split; [right; reflexivity |]. repeat split; auto.
    intros _. revert Hr. run_prog.
    destruct ((bytes (ps_args s) =? 9223372036854775808)
              || (bytes (ps_args s) =? 9223372036854775807)
              || (bytes (ps_args s) >? 1024)
              || (bytes (ps_args s) <=? 0)); [reflexivity | discriminate].
Qed.

(** When getopt_long reports neither help nor an unknown option and
    exactly one operand is left, [args_parse] returns with the flags of the
    options met and the converted [strtol] value of the operand. *)
Lemma args_parse_returns (argv : list string) (s : pstate P) :
  let g := getopt_long P argv in
  let rets := fst (fst g) in
  let optind := snd (fst g) in
  let r := args_parse P argv s in
  help_requested rets = false ->
  Z.of_nat (List.length argv) = optind + 1 ->
  fst r = Returned tt
  /\ ps_world (snd r) = ps_world s
  /\ ps_args (snd r)
     = mk_args (existsb (fun c => c =? 120) rets || hex (ps_args s))
               (existsb (fun c => c =? 118) rets || verbose (ps_args s))
               (to_size_t (strtol (nth (Z.to_nat optind) (snd g) ""))).
Proof.
  cbn zeta. intros Hh Hc. unfold args_parse. cbn zeta. unfold bind.
  generalize (args_parse_opts_flags (nth 0 (snd (getopt_long P argv)) "")
                (fst (fst (getopt_long P argv))) s Hh). cbn zeta.
  destruct (args_parse_opts P (nth 0 (snd (getopt_long P argv)) "")
              (fst (fst (getopt_long P argv))) s) as [o s1]. cbn [fst snd].
  intros (-> & Hw & Ha).
  apply Z.eqb_eq in Hc. rewrite Hc. run_prog. rewrite Ha. cbn. auto.
Qed.

(** X12: whenever [args_parse] ends the process, the last thing it printed
    is the usage line naming [argv[0]], and [args.bytes] has not been set;
    the status is [EXIT_SUCCESS] after help or an unknown option and
    [EXIT_FAILURE] when the number of operands is not one. *)
Theorem args_parse_exit_prints_usage (argv : list string) (s : pstate P) (c : Z) :
  let g := getopt_long P argv in
  let r := args_parse P argv s in
  fst r = Exited c ->
  last (ps_log (snd r)) (EvStdout []) = usage_line (nth 0 (snd g) "")
  /\ bytes (ps_args (snd r)) = bytes (ps_args s)
  /\ ((c = EXIT_SUCCESS /\ help_requested (fst (fst g)) = true)
      \/ (c = EXIT_FAILURE /\ help_requested (fst (fst g)) = false
          /\ Z.of_nat (List.length argv) <> snd (fst g) + 1)).
Proof.
  cbn zeta. unfold args_parse. cbn zeta. unfold bind.
  generalize (args_parse_opts_spec P (nth 0 (snd (getopt_long P argv)) "")
                (fst (fst (getopt_long P argv))) s).
  generalize (args_parse_opts_usage (nth 0 (snd (getopt_long P argv)) "")
                (fst (fst (getopt_long P argv))) s).
  cbn zeta.
  destruct (args_parse_opts P (nth 0 (snd (getopt_long P argv)) "")
              (fst (fst (getopt_long P argv))) s) as [o s1]. cbn [fst snd].
  intros Hu (_ & Hb & _ & Hr).
  destruct (help_requested (fst (fst (getopt_long P argv)))).
  - subst o. destruct (Hu eq_refl) as [_ Hlast]. cbn.
    intros H. injection H as <-. auto.
  - subst o.
    destruct (Z.of_nat (List.length argv) =? snd (fst (getopt_long P argv)) + 1) eqn:Ec;
      run_prog; [discriminate |].
    intros H. injection H as <-. rewrite last_last.
    apply Z.eqb_neq in Ec. repeat split; auto.
Qed.

End Arguments.

(** ** The whole run, continued *)

Section Run.
Context (P : Platform).

(** X13: every run ends in [exit], with status [EXIT_SUCCESS] or
    [EXIT_FAILURE]; a run that ends with [EXIT_FAILURE] has written
    nothing on stdout and has not touched the seed file with
    RAND_write_file. *)
Theorem exit_status_and_silence (argv : list string) (w : world P) :
  let r := run P argv w in
  (fst r = Exited EXIT_SUCCESS \/ fst r = Exited EXIT_FAILURE)
  /\ (fst r = Exited EXIT_FAILURE ->
      stdout_of (ps_log (snd r)) = [] /\ writes (ps_log (snd r)) = []).
Proof.
  intros r.
  destruct (main_cases P argv w) as [H | [H | H]]; fold r in H.
  - destruct H as (_ & He & _). rewrite He. split; [auto | discriminate].
  - destruct H as (_ & _ & He & Ho & Hc). rewrite He.
    split; [auto |]. intros _. split; [exact Ho |].
    apply no_calls_no_writes. exact Hc.
  - destruct H as (_ & _ & _ & _ & [H | [H | H]]).
    + destruct H as (He & Ho & _ & Hw). rewrite He. auto.
    + destruct H as (He & Ho & Hw & _). rewrite He. auto.
    + destruct H as (He & _). rewrite He. split; [auto | discriminate].
Qed.

(** X14: RAND_bytes is called at most once in a run, and then for exactly
    [args.bytes] bytes with [1 <= args.bytes <= MAX_BYTES]: the generator
    is never asked for more than the 1024 cells of [buffer]. *)
Theorem at_most_one_draw (argv : list string) (w : world P) :
  let r := run P argv w in
  draws (ps_log (snd r)) = []
  \/ exists rc,
      draws (ps_log (snd r)) = [(bytes (ps_args (snd r)), rc)]
      /\ 1 <= bytes (ps_args (snd r)) <= MAX_BYTES.
Proof.
  intros r. unfold MAX_BYTES.
  destruct (main_cases P argv w) as [H | [H | H]]; fold r in H.
  - destruct H as (_ & _ & _ & _ & Hc). left. apply no_calls_no_draws. exact Hc.
  - destruct H as (_ & _ & _ & _ & Hc). left. apply no_calls_no_draws. exact Hc.
  - destruct H as (_ & _ & _ & Hrange & [H | [H | H]]).
    + destruct H as (_ & _ & Hd & _). left. exact Hd.
    + destruct H as (_ & _ & _ & rc & Hd & _). right. exists rc. auto.
    + destruct H as (_ & pre & buffer & post & b & Hlog & _ & _ & Hd1 & _ & _ & Hd2 & _).
      right. exists 1. split; [| exact Hrange].
      rewrite Hlog. autorewrite with log.
      unfold draws at 2. rewrite output_events_calls, Hd1, Hd2. reflexivity.
Qed.


(** [main] is the two argument checks followed by [main_core]. *)
Lemma main_split (argv : list string) :
  main P argv
  = bind P (args_parse P argv) (fun _ =>
    bind P (args_sanity P) (fun c =>
    bind P (if negb (c =? 0) then exit P EXIT_FAILURE else ret P tt) (fun _ =>
    main_core P))).
Proof. reflexivity. Qed.

(** A command line that passes both checks runs [main_core] in the
    initial world, with the parsed arguments and a log that holds stderr
    text at most. *)
Lemma run_accepted (argv : list string) (w : world P) :
  let g := getopt_long P argv in
  let rets := fst (fst g) in
  let optind := snd (fst g) in
  let v := strtol (nth (Z.to_nat optind) (snd g) "") in
  help_requested rets = false ->
  Z.of_nat (List.length argv) = optind + 1 ->
  1 <= v <= MAX_BYTES ->
  exists l0,
    stdout_of l0 = [] /\ calls_of l0 = []
    /\ run P argv w
       = main_core P (mk_pstate P w
                        (mk_args (existsb (fun c => c =? 120) rets)
                                 (existsb (fun c => c =? 118) rets) v)
                        l0).
Proof.
  cbn zeta. intros Hh Hc Hv. unfold MAX_BYTES in Hv.
  unfold run. rewrite main_split. unfold bind at 1.
  generalize (args_parse_returns P argv (start P w) Hh Hc).
  generalize (args_parse_spec P argv (start P w)). cbn zeta.
  destruct (args_parse P argv (start P w)) as [o1 s1]. cbn [fst snd].
  intros (_ & (l1 & Hl1 & Ho1 & Hc1) & _) (-> & Hw1 & Ha1).
  cbn in Hl1, Hw1, Ha1. rewrite !orb_false_r in Ha1.
  unfold to_size_t in Ha1. rewrite Z.mod_small in Ha1 by lia.
  destruct s1 as [w1 a1 log1]. cbn in Hl1, Hw1, Ha1. subst w1 a1 log1.
  unfold bind at 1.
  match goal with
  | |- context [args_sanity P ?st] =>
      generalize (args_sanity_spec P st); cbn zeta;
      destruct (args_sanity P st) as [o2 s2]
  end.
  cbn [fst snd ps_world ps_args ps_log bytes].
  intros (Hw2 & Ha2 & (l2 & Hl2 & Ho2 & Hc2) & ->).
  replace ((1 <=? strtol (nth (Z.to_nat (snd (fst (getopt_long P argv))))
                            (snd (getopt_long P argv)) ""))
           && (strtol (nth (Z.to_nat (snd (fst (getopt_long P argv))))
                         (snd (getopt_long P argv)) "") <=? 1024))
    with true
    by (symmetry; apply andb_true_iff; split; apply Z.leb_le; lia).
  cbn [negb Z.eqb]. unfold bind at 1, ret at 1.
  destruct s2 as [w2 a2 log2]. cbn in Hw2, Ha2, Hl2. subst w2 a2 log2.
  exists (l1 ++ l2). autorewrite with log. rewrite Ho1, Ho2, Hc1, Hc2.
  repeat split.
Qed.

(** [seed_rand] starts with the access check of its argument. *)
Lemma seed_rand_first_call (seed_file : string) (s : pstate P) :
  exists l rest,
    ps_log (snd (seed_rand P seed_file s)) = ps_log s ++ l
    /\ calls_of l
       = CAccess seed_file (Z.lor R_OK W_OK)
                 (access P seed_file (Z.lor R_OK W_OK) (ps_world s)) :: rest.
Proof.
  run_prog.
  destruct (access P seed_file 6 (ps_world s) =? 0); cbn;
    [destruct (lstat P seed_file (ps_world s)) as [st |]; cbn |];
    repeat split_cond;
    rewrite <- ?app_assoc; cbn [app]; eexists; eexists;
    (split; [reflexivity | cbn; reflexivity]).
Qed.


(** The output part of [main]: the first [args.bytes] cells of the buffer
    are printed, the seed is saved once, and the process exits with
    [EXIT_SUCCESS]. *)
Lemma main_output_spec (buffer : list byte) (s : pstate P) :
  (Z.to_nat (bytes (ps_args s)) <= List.length buffer)%nat ->
  let r := main_output P buffer s in
  fst r = Exited EXIT_SUCCESS
  /\ ps_args (snd r) = ps_args s
  /\ exists post b,
      ps_log (snd r)
      = ps_log s
        ++ output_events (ps_args s) (firstn (Z.to_nat (bytes (ps_args s))) buffer)
        ++ post
      /\ stdout_of post = [] /\ draws post = []
      /\ writes post = [(SEED_FILE, b)].
Proof.
  intros Hfit r. assert (Er : r = main_output P buffer s) by reflexivity.
  clearbody r. revert Er. unfold main_output, bind. unfold get_args at 1.
  rewrite print_loop_spec by (cbn; exact Hfit). cbn [skipn ps_args].
  match goal with
  | |- context [(if hex (ps_args s) then _ else _) ?st] =>
      assert (E5 : (if hex (ps_args s) then printf P [newline] else ret P tt) st
                   = (Returned tt,
                      mk_pstate P (ps_world s) (ps_args s)
                        (ps_log s
                         ++ output_events (ps_args s)
                              (firstn (Z.to_nat (bytes (ps_args s))) buffer))))
  end.
  { unfold output_events.
    destruct (hex (ps_args s)); unfold printf, emit, logged, ret; cbn;
      rewrite ?app_nil_r, <- ?app_assoc; reflexivity. }
  rewrite E5. clear E5.
  match goal with
  | |- context [seed_save P SEED_FILE ?st] =>
      generalize (seed_save_spec P SEED_FILE st eq_refl); cbn zeta;
      destruct (seed_save P SEED_FILE st) as [o6 s6]
  end.
  cbn [fst snd ps_args ps_log].
  intros (Ha6 & l6 & b & Hl6 & Ho6 & Hd6 & Hw6 & ->). intros ->. cbn.
  split; [reflexivity |]. split; [exact Ha6 |].
  exists l6, b. rewrite Hl6, <- app_assoc. auto.
Qed.

(** How [main_core] ends: after a failed seeding, after a failed draw, or
    in the output part with the buffer [get_rand] returned. *)
Lemma main_core_cases (s : pstate P) :
  1 <= bytes (ps_args s) <= MAX_BYTES ->
  let r3 := seed_rand P SEED_FILE s in
  let r4 := get_rand P (repeat x00 (Z.to_nat MAX_BYTES)) (bytes (ps_args s)) (snd r3) in
  let r := main_core P s in
  exists c,
    fst r3 = Returned c
    /\ ((c <> 0 /\ r = (Exited EXIT_FAILURE, snd r3))
        \/ (c = 0 /\ fst r4 = Returned None /\ r = (Exited EXIT_FAILURE, snd r4))
        \/ (c = 0 /\ exists buffer,
               fst r4 = Returned (Some buffer)
               /\ (Z.to_nat (bytes (ps_args (snd r4))) <= List.length buffer)%nat
               /\ r = main_output P buffer (snd r4))).
Proof.
  intros Hb r3 r4 r. assert (Er : r = main_core P s) by reflexivity.
  clearbody r. subst r4 r3. revert Er. unfold main_core. cbn zeta. unfold bind.
  generalize (seed_rand_spec P SEED_FILE s). cbn zeta.
  destruct (seed_rand P SEED_FILE s) as [o3 s3]. cbn [fst snd].
  intros (Ha3 & _ & (c & ->)).
  destruct (c =? 0) eqn:Ec; cbn [negb].
  2:{ intros ->. exists c. split; [reflexivity |].
      left. apply Z.eqb_neq in Ec. split; [exact Ec | reflexivity]. }
  apply Z.eqb_eq in Ec. unfold ret at 1, get_args at 1. rewrite Ha3.
  generalize (get_rand_spec P (repeat x00 (Z.to_nat MAX_BYTES)) (bytes (ps_args s)) s3).
  cbn zeta.
  destruct (get_rand P (repeat x00 (Z.to_nat MAX_BYTES)) (bytes (ps_args s)) s3)
    as [o4 s4]. cbn [fst snd].
  intros (Ha4 & l4 & rc & _ & _ & _ & _ & Hr4).
  destruct (rc =? 1).
  - destruct Hr4 as (buffer & -> & Hlen). intros ->.
    exists c. split; [reflexivity |]. right. right.
    split; [exact Ec |]. exists buffer. split; [reflexivity |].
    split; [| reflexivity].
    rewrite repeat_length in Hlen. rewrite Ha4, Ha3.
    unfold MAX_BYTES in *. lia.
  - subst o4. intros ->. exists c. split; [reflexivity |]. right. left. auto.
Qed.

(** The log of [main_core] is the log of [seed_rand] followed by what the
    draw, the output and the save add; nothing follows a failed seeding. *)
Lemma main_core_log (s : pstate P) :
  1 <= bytes (ps_args s) <= MAX_BYTES ->
  exists c l3 l,
    fst (seed_rand P SEED_FILE s) = Returned c
    /\ ps_log (snd (seed_rand P SEED_FILE s)) = ps_log s ++ l3
    /\ draws l3 = []
    /\ ps_log (snd (main_core P s)) = ps_log s ++ l3 ++ l
    /\ ps_args (snd (main_core P s)) = ps_args s
    /\ (c <> 0 -> l = []).
Proof.
  intros Hb.
  destruct (main_core_cases s Hb) as (c & Hc & Hcases). cbn zeta in Hcases.
  destruct (seed_rand_spec P SEED_FILE s) as (Ha3 & (l3 & Hl3 & _ & Hd3 & _) & _).
  cbn zeta in Ha3, Hl3.
  pose proof (get_rand_spec P (repeat x00 (Z.to_nat MAX_BYTES)) (bytes (ps_args s))
                (snd (seed_rand P SEED_FILE s))) as (Ha4 & l4 & rc & Hl4 & _).
  cbn zeta in Ha4, Hl4.
  exists c, l3.
  destruct Hcases as [(Hne & Hr) | [(Hz & _ & Hr) | (Hz & buffer & _ & Hfit & Hr)]].
  - exists []. rewrite Hr. cbn [fst snd]. rewrite app_nil_r. auto 10.
  - exists l4. rewrite Hr. cbn [fst snd]. rewrite Hl4, Hl3, Ha4, Ha3, <- app_assoc.
    repeat split; auto. intros Hne. contradiction.
  - destruct (main_output_spec buffer _ Hfit) as (_ & Ha & post & b & Hl & _).
    cbn zeta in Ha, Hl. rewrite <- Hr in Ha, Hl.
    eexists. rewrite Hl, Hl4, Hl3, Ha, Ha4, Ha3, <- !app_assoc.
    repeat split; auto. intros Hne. contradiction.
Qed.

(** X16: a command line with no help request, exactly one operand and a
    [strtol] value in [1, 1024] reaches the seeding: the run keeps the
    parsed arguments (the two flags as met, [args.bytes] the value) and
    its first platform call is the access check of [SEED_FILE] for
    reading and writing, made in the initial world. *)
Theorem run_reaches_selection (argv : list string) (w : world P) :
  let g := getopt_long P argv in
  let rets := fst (fst g) in
  let optind := snd (fst g) in
  let v := strtol (nth (Z.to_nat optind) (snd g) "") in
  let r := run P argv w in
  help_requested rets = false ->
  Z.of_nat (List.length argv) = optind + 1 ->
  1 <= v <= MAX_BYTES ->
  ps_args (snd r)
  = mk_args (existsb (fun c => c =? 120) rets) (existsb (fun c => c =? 118) rets) v
  /\ exists rest,
      calls_of (ps_log (snd r))
      = CAccess SEED_FILE (Z.lor R_OK W_OK)
                (access P SEED_FILE (Z.lor R_OK W_OK) w) :: rest.
Proof.
  intros g rets optind v r Hh Hc Hv. subst r.
  destruct (run_accepted argv w Hh Hc Hv) as (l0 & Ho0 & Hc0 & ->).
  fold g rets optind v.
  set (s2 := mk_pstate P w _ l0).
  destruct (main_core_log s2 Hv) as (c & l3 & l & _ & Hl3 & _ & Hl & Ha & _).
  destruct (seed_rand_first_call SEED_FILE s2) as (l3' & rest & Hl3' & Hcalls).
  rewrite Hl3 in Hl3'. apply app_inv_head in Hl3'. subst l3'.
  split; [exact Ha |].
  exists (rest ++ calls_of l). rewrite Hl. cbn [ps_log s2].
  autorewrite with log. rewrite Hc0, Hcalls. reflexivity.
Qed.


(** What selection decides, and the world it leaves, depend on the world
    it starts in only, not on [args] or on the log. *)
Lemma seed_select_world_only (seed_file : string) (s : pstate P) :
  fst (seed_select P seed_file s) = selected P seed_file (ps_world s)
  /\ ps_world (snd (seed_select P seed_file s))
     = world_after_select P seed_file (ps_world s).
Proof.
  unfold selected, world_after_select, start. run_prog.
  destruct (access P seed_file 6 (ps_world s) =? 0); cbn;
    [destruct (lstat P seed_file (ps_world s)) as [st |]; cbn |];
    repeat split_cond; split; reflexivity.
Qed.

(** After a successful load the world is the one RAND_load_file left. *)
Lemma seed_rand_world (seed_file : string) (s : pstate P) (seed : string) (size : Z) :
  fst (seed_select P seed_file s) = Returned (Some (seed, size)) ->
  let ld := RAND_load_file P seed size (ps_world (snd (seed_select P seed_file s))) in
  fst ld = size ->
  ps_world (snd (seed_rand P seed_file s)) = snd ld.
Proof.
  cbn zeta. unfold seed_rand, bind.
  destruct (seed_select P seed_file s) as [o s1]. cbn [fst snd].
  intros -> Hld. run_prog. rewrite Hld, Z.eqb_refl. cbn.
  destruct (verbose (ps_args s1)); reflexivity.
Qed.

(** What [get_rand] returns when RAND_bytes reports success. *)
Lemma get_rand_success (dest : list byte) (size : Z) (s : pstate P) :
  let dr := RAND_bytes P (to_int size) (ps_world s) in
  fst (fst dr) = 1 ->
  fst (get_rand P dest size s)
  = Returned (Some (store dest (firstn (Z.to_nat (to_int size)) (snd (fst dr))))).
Proof.
  cbn zeta. intros H. run_prog.
  destruct (verbose (ps_args s)); cbn; rewrite H; reflexivity.
Qed.

(** X18: what a successful run prints is what the generator produced: when
    the command line is accepted, selection settles on a source, the load
    returns the requested size and RAND_bytes, called after it, reports
    success and stores the [args.bytes] bytes [bs], the process exits with
    [EXIT_SUCCESS] and stdout holds [bs] itself in raw mode and the hex
    digits of [bs] followed by a newline in hex mode. *)
Theorem output_is_generator_bytes
    (argv : list string) (w : world P) (seed : string) (size : Z) (bs : list byte) :
  let g := getopt_long P argv in
  let rets := fst (fst g) in
  let optind := snd (fst g) in
  let v := strtol (nth (Z.to_nat optind) (snd g) "") in
  let a := mk_args (existsb (fun c => c =? 120) rets)
                   (existsb (fun c => c =? 118) rets) v in
  let ld := RAND_load_file P seed size (world_after_select P SEED_FILE w) in
  let dr := RAND_bytes P v (snd ld) in
  let r := run P argv w in
  help_requested rets = false ->
  Z.of_nat (List.length argv) = optind + 1 ->
  1 <= v <= MAX_BYTES ->
  selected P SEED_FILE w = Returned (Some (seed, size)) ->
  fst ld = size ->
  fst (fst dr) = 1 ->
  snd (fst dr) = bs ->
  Z.of_nat (List.length bs) = v ->
  fst r = Exited EXIT_SUCCESS
  /\ ps_args (snd r) = a
  /\ stdout_of (ps_log (snd r)) = rendered a bs.
Proof.
  intros g rets optind v a ld dr r Hh Hc Hv Hsel Hld Hrc Hbs Hlen.
  subst r. destruct (run_accepted argv w Hh Hc Hv) as (l0 & Ho0 & Hc0 & ->).
  fold g rets optind v a. set (s2 := mk_pstate P w a l0).
  assert (Hid : to_int v = v) by (apply to_int_id; unfold MAX_BYTES, INT_MAX in *; lia).
  destruct (seed_select_world_only SEED_FILE s2) as [Hsel2 Hw2].
  cbn [ps_world s2] in Hsel2, Hw2. rewrite Hsel in Hsel2.
  pose proof (seed_rand_result P SEED_FILE s2 seed size Hsel2) as Hres.
  pose proof (seed_rand_world SEED_FILE s2 seed size Hsel2) as Hworld.
  cbn zeta in Hres, Hworld. rewrite Hw2 in Hres, Hworld. fold ld in Hres, Hworld.
  rewrite Hld, Z.eqb_refl in Hres. specialize (Hworld Hld).
  destruct (seed_rand_spec P SEED_FILE s2) as (Ha3 & (l3 & Hl3 & Ho3 & _) & _).
  cbn zeta in Ha3, Hl3.
  pose proof (get_rand_success (repeat x00 (Z.to_nat MAX_BYTES)) v
                (snd (seed_rand P SEED_FILE s2))) as Hget.
  cbn zeta in Hget. rewrite Hid, Hworld in Hget. fold dr in Hget.
  assert (Hn : Z.to_nat v = List.length bs) by lia.
  specialize (Hget Hrc). rewrite Hbs, Hn, firstn_all in Hget.
  destruct (get_rand_spec P (repeat x00 (Z.to_nat MAX_BYTES)) v
              (snd (seed_rand P SEED_FILE s2)))
    as (Ha4 & l4 & rc & Hl4 & Ho4 & _).
  cbn zeta in Ha4, Hl4.
  assert (Hb2 : 1 <= bytes (ps_args s2) <= MAX_BYTES) by exact Hv.
  destruct (main_core_cases s2 Hb2) as (c & Hc3 & Hcases). cbn zeta in Hcases.
  rewrite Hres in Hc3. injection Hc3 as <-.
  cbn [ps_args s2 bytes a] in Hcases. fold a s2 in Hcases.
  destruct Hcases as [(Hne & _) | [(_ & Hnone & _) | (_ & buffer & Hsome & Hfit & Hr)]].
  - contradiction.
  - rewrite Hget in Hnone. discriminate.
  - rewrite Hget in Hsome. injection Hsome as <-.
    destruct (main_output_spec _ _ Hfit) as (He & Ha & post & b & Hl & Hop & _).
    cbn zeta in He, Ha, Hl. rewrite <- Hr in He, Ha, Hl.
    rewrite Ha4, Ha3 in Ha, Hl. cbn [ps_args s2] in Ha, Hl.
    split; [exact He |]. split; [exact Ha |].
    rewrite Hl, Hl4, Hl3. cbn [ps_log s2]. autorewrite with log.
    rewrite Ho0, Ho3, Ho4, Hop, output_events_stdout. cbn [app bytes a].
    rewrite app_nil_r, Hn.
    assert (Hroom : (List.length bs <= List.length (repeat x00 (Z.to_nat MAX_BYTES)))%nat).
    { rewrite repeat_length. unfold MAX_BYTES in *. lia. }
    destruct (store_exact (repeat x00 (Z.to_nat MAX_BYTES)) bs Hroom) as (_ & Hfirst & _).
    exact (f_equal (rendered a) Hfirst).
Qed.

(** What [seed_rand] does when lstat fails on an accessible path: the
    access and lstat calls, the perror report, and the return of 1. *)
Lemma seed_rand_lstat_failure_log (seed_file : string) (s : pstate P) :
  access P seed_file (Z.lor R_OK W_OK) (ps_world s) = 0 ->
  lstat P seed_file (ps_world s) = None ->
  seed_rand P seed_file s
  = (Returned 1,
     mk_pstate P (ps_world s) (ps_args s)
       (ps_log s ++ [EvCall (CAccess seed_file (Z.lor R_OK W_OK) 0);
                     EvCall (CLstat seed_file None);
                     EvPerror "Error executing lstat on seed file: "])).
Proof.
  intros Ha Hl. run_prog. cbn in Ha. rewrite Ha. cbn. rewrite Hl. cbn.
  rewrite <- !app_assoc. reflexivity.
Qed.

(** C1 (as amended).  Whenever the seed path is not accessible, or lstat
    on it succeeds, selection returns a source, the seed file or the
    entropy device, together with a read size; it neither exits nor jumps
    to [err_out], whatever kind and size the seed file has.  When the path
    is accessible and lstat on it fails, [seed_rand] reports the error with
    perror and returns 1 having made no call but access and lstat (so no
    load), in an unchanged world; and a run whose command line passed the
    argument checks, so that [seed_rand] is called, then exits with
    [EXIT_FAILURE], a non-zero status, with nothing on stdout and without
    any load or draw. *)
Theorem C1_selection_resolves
    (seed_file : string) (s : pstate P) (argv : list string) (w : world P) :
  (access P seed_file (Z.lor R_OK W_OK) (ps_world s) <> 0
   \/ lstat P seed_file (ps_world s) <> None ->
   exists seed size,
     fst (seed_select P seed_file s) = Returned (Some (seed, size))
     /\ (seed = seed_file \/ seed = ENTROPY_SOURCE))
  /\ (access P seed_file (Z.lor R_OK W_OK) (ps_world s) = 0 ->
      lstat P seed_file (ps_world s) = None ->
      fst (seed_select P seed_file s) = Returned None
      /\ fst (seed_rand P seed_file s) = Returned 1
      /\ ps_world (snd (seed_rand P seed_file s)) = ps_world s
      /\ ps_log (snd (seed_rand P seed_file s))
         = ps_log s ++ [EvCall (CAccess seed_file (Z.lor R_OK W_OK) 0);
                        EvCall (CLstat seed_file None);
                        EvPerror "Error executing lstat on seed file: "])
  /\ (let g := getopt_long P argv in
      let optind := snd (fst g) in
      let r := run P argv w in
      help_requested (fst (fst g)) = false ->
      Z.of_nat (List.length argv) = optind + 1 ->
      1 <= strtol (nth (Z.to_nat optind) (snd g) "") <= MAX_BYTES ->
      access P SEED_FILE (Z.lor R_OK W_OK) w = 0 ->
      lstat P SEED_FILE w = None ->
      fst r = Exited EXIT_FAILURE
      /\ exit_status (fst r) <> 0
      /\ stdout_of (ps_log (snd r)) = []
      /\ loads (ps_log (snd r)) = []
      /\ draws (ps_log (snd r)) = []
      /\ In (EvPerror "Error executing lstat on seed file: ") (ps_log (snd r))).
Proof.
  split; [| split].
  - intros H.
    destruct (seed_select_cases P seed_file s) as [(Ha & Hl & _) | Hsel]; [| exact Hsel].
    destruct H as [H | H]; contradiction.
  - intros Ha Hl.
    rewrite (seed_rand_lstat_failure_log seed_file s Ha Hl). cbn [fst snd ps_world ps_log].
    repeat split.
    destruct (seed_select_cases P seed_file s) as [(_ & _ & Hn) | (seed & size & Hsel & _)];
      [exact Hn |].
    exfalso. revert Hsel. run_prog. cbn in Ha. rewrite Ha. cbn. rewrite Hl. cbn.
    discriminate.
  - intros g optind r Hh Hc Hv Ha Hl. subst r.
    destruct (run_accepted argv w Hh Hc Hv) as (l0 & Ho0 & Hc0 & ->).
    match goal with
    | |- context [main_core P ?st] => set (s2 := st)
    end.
    assert (Hb2 : 1 <= bytes (ps_args s2) <= MAX_BYTES) by exact Hv.
    destruct (main_core_cases s2 Hb2) as (c & Hc3 & Hcases). cbn zeta in Hcases.
    pose proof (seed_rand_lstat_failure_log SEED_FILE s2 Ha Hl) as Hfail.
    rewrite Hfail in Hc3, Hcases. cbn [fst snd] in Hc3, Hcases.
    injection Hc3 as <-.
    destruct Hcases as [(_ & Hr) | [(Hz & _) | (Hz & _)]]; try discriminate.
    rewrite Hr. cbn [fst snd ps_log s2 exit_status].
    split; [reflexivity |]. split; [discriminate |].
    unfold loads, draws. autorewrite with log. rewrite Ho0, Hc0.
    repeat split. apply in_or_app. right. cbn. auto.
Qed.

End Run.

(** ** Verbosity *)

Section Verbosity.
Context (P : Platform).

Lemma related_bind {A B : Type} (m m' : prog P A) (k k' : A -> prog P B) :
  related P m m' -> (forall a, related P (k a) (k' a)) ->
  related P (bind P m k) (bind P m' k').
Proof.
  intros Hm Hk s s' Hs. unfold bind.
  destruct (Hm s s' Hs) as [Hf Hsame].
  destruct (m s) as [o s1], (m' s') as [o' s1']. cbn [fst snd] in Hf, Hsame.
  subst o'. destruct o as [a | c].
  - apply Hk. exact Hsame.
  - split; [reflexivity | exact Hsame].
Qed.

Lemma related_get_args {B : Type} (k k' : args_t -> prog P B) :
  (forall a a', hex a = hex a' -> bytes a = bytes a' -> related P (k a) (k' a')) ->
  related P (bind P (get_args P) k) (bind P (get_args P) k').
Proof.
  intros Hk s s' Hs. unfold bind, get_args.
  destruct Hs as (Hw & Hh & Hb & Ho & Hc).
  apply Hk; [exact Hh | exact Hb | repeat split; assumption].
Qed.

Lemma related_ret {A : Type} (a : A) : related P (ret P a) (ret P a).
Proof. intros s s' Hs. split; [reflexivity | exact Hs]. Qed.

Lemma related_exit {A : Type} (c : Z) : related P (@exit P A c) (exit P c).
Proof. intros s s' Hs. split; [reflexivity | exact Hs]. Qed.

Lemma related_printf (bs : list byte) : related P (printf P bs) (printf P bs).
Proof.
  intros s s' (Hw & Hh & Hb & Ho & Hc).
  unfold printf, emit, logged, same_observables.
  cbn [fst snd ps_world ps_args ps_log]. autorewrite with log.
  rewrite Ho, Hc. repeat split; auto.
Qed.

Opaque fmt_d.

Lemma related_seed_select (seed_file : string) :
  related P (seed_select P seed_file) (seed_select P seed_file).
Proof.
  intros [w a l] [w' a' l'] (Hw & Hh & Hb & Ho & Hc).
  cbn [ps_world ps_args ps_log] in Hw, Hh, Hb, Ho, Hc. subst w'.
  run_prog. relate_leaves.
Qed.

Lemma related_seed_load (seed : string) (size : Z) :
  related P (seed_load P seed size) (seed_load P seed size).
Proof. relate_by_cases. Qed.

Lemma related_seed_rand (seed_file : string) :
  related P (seed_rand P seed_file) (seed_rand P seed_file).
Proof.
  unfold seed_rand. apply related_bind; [apply related_seed_select |].
  intros [[seed size] |]; [apply related_seed_load | apply related_ret].
Qed.

Lemma related_seed_save (seed_file : string) :
  path_fits seed_file = true ->
  related P (seed_save P seed_file) (seed_save P seed_file).
Proof. intros _. relate_by_cases. Qed.

Lemma related_get_rand (dest : list byte) (size : Z) :
  related P (get_rand P dest size) (get_rand P dest size).
Proof. relate_by_cases. Qed.

Transparent fmt_d.

Lemma related_print_loop (buffer : list byte) (n i : nat) :
  related P (print_loop P buffer i n) (print_loop P buffer i n).
Proof.
  revert i. induction n as [| n IH]; intros i; cbn [print_loop].
  - apply related_ret.
  - apply related_get_args. intros a a' Hh _. rewrite Hh.
    apply related_bind; [| intros _; apply IH].
    destruct (hex a'); apply related_printf.
Qed.

Lemma related_main_output (buffer : list byte) :
  related P (main_output P buffer) (main_output P buffer).
Proof.
  unfold main_output. apply related_get_args. intros a a' Hh Hb. rewrite Hh, Hb.
  apply related_bind; [apply related_print_loop | intros _].
  apply related_bind;
    [destruct (hex a'); [apply related_printf | apply related_ret] | intros _].
  apply related_bind; [apply related_seed_save; reflexivity | intros _; apply related_exit].
Qed.

(** X20: verbose mode changes nothing but stderr: started in the same
    world with the same [args.hex] and [args.bytes], a verbose and a quiet
    run of the core of [main] end with the same exit status, in the same
    world, with the same bytes on stdout and the same platform calls with
    the same results. *)
Theorem verbosity_is_not_observable (s s' : pstate P) :
  same_observables P s s' ->
  fst (main_core P s) = fst (main_core P s')
  /\ same_observables P (snd (main_core P s)) (snd (main_core P s')).
Proof.
  revert s s'. change (related P (main_core P) (main_core P)).
  unfold main_core. cbn zeta.
  apply related_bind; [apply related_seed_rand | intros c].
  apply related_bind;
    [destruct (negb (c =? 0)); [apply related_exit | apply related_ret] | intros _].
  apply related_get_args. intros a a' _ Hb. rewrite Hb.
  apply related_bind; [apply related_get_rand | intros [buffer |]].
  - apply related_main_output.
  - apply related_exit.
Qed.

End Verbosity.

(** ** Concrete runs for the further properties *)

(** C1 on a valid seed file of 64 bytes, and on the same file with lstat
    failing, for a request of three bytes. *)
Lemma C1_witness :
  (let s := start Sim.platform Sim.good_seed in
   exists seed size,
     fst (seed_select Sim.platform SEED_FILE s) = Returned (Some (seed, size))
     /\ (seed = SEED_FILE \/ seed = ENTROPY_SOURCE))
  /\ (let s := start Sim.platform (Sim.lstat_failing Sim.good_seed) in
      fst (seed_rand Sim.platform SEED_FILE s) = Returned 1
      /\ ps_log (snd (seed_rand Sim.platform SEED_FILE s))
         = [EvCall (CAccess SEED_FILE 6 0); EvCall (CLstat SEED_FILE None);
            EvPerror "Error executing lstat on seed file: "])
  /\ (let r := run Sim.platform ["rand"; "3"] (Sim.lstat_failing Sim.good_seed) in
      fst r = Exited EXIT_FAILURE
      /\ stdout_of (ps_log (snd r)) = []
      /\ loads (ps_log (snd r)) = []).
Proof.
  split; [| split].
  - intros s.
    apply (proj1 (C1_selection_resolves Sim.platform SEED_FILE s
                    ["rand"; "3"] Sim.good_seed)).
    right. vm_compute. discriminate.
  - intros s.
    destruct (proj1 (proj2 (C1_selection_resolves Sim.platform SEED_FILE s
                              ["rand"; "3"] (Sim.lstat_failing Sim.good_seed)))
                eq_refl eq_refl) as (_ & Hr & _ & Hlog).
    split; [exact Hr | exact Hlog].
  - intros r.
    destruct (proj2 (proj2 (C1_selection_resolves Sim.platform SEED_FILE
                              (start Sim.platform (Sim.lstat_failing Sim.good_seed))
                              ["rand"; "3"] (Sim.lstat_failing Sim.good_seed)))
                eq_refl eq_refl) as (He & _ & Ho & Hld & _).
    + vm_compute. split; discriminate.
    + reflexivity.
    + reflexivity.
    + split; [exact He |]. split; [exact Ho | exact Hld].
Defined.

(** X1 on the seed path of the program. *)
Lemma dirpart_of_joined_path_witness :
  path_fits SEED_FILE = true
  /\ dirpart SEED_FILE = "/var/lib/rand"
  /\ Z.of_nat (String.length "/var/lib/rand") < PATH_MAX.
Proof.
  split; [reflexivity |].
  exact (dirpart_of_joined_path "/var/lib/rand" "rand.seed" eq_refl eq_refl).
Defined.

(** X2 on the seed path, with the seed directory present. *)
Lemma seed_save_calls_witness :
  let s := start Sim.platform Sim.good_seed in
  fst (seed_save Sim.platform SEED_FILE s) = Returned 0
  /\ calls_of (ps_log (snd (seed_save Sim.platform SEED_FILE s)))
     = [COpendir "/var/lib/rand" DirOpened; CClosedir; CWriteFile SEED_FILE 1024].
Proof.
  intros s.
  destruct (seed_save_calls Sim.platform SEED_FILE s eq_refl)
    as (Hr & _ & _ & l & Hl & Hcalls).
  split; [exact Hr |]. rewrite Hl. exact Hcalls.
Defined.

(** X3 on a quiet load of the 64-byte seed file and a quiet save to the
    seed path. *)
Lemma diagnostics_only_when_verbose_witness :
  let s := start Sim.platform Sim.good_seed in
  (exists l, ps_log (snd (seed_load Sim.platform SEED_FILE 64 s)) = ps_log s ++ l
             /\ List.length (diagnostics l) = 0%nat)
  /\ (exists l, ps_log (snd (seed_save Sim.platform SEED_FILE s)) = ps_log s ++ l
                /\ List.length (diagnostics l) = 0%nat).
Proof.
  intros s. split.
  - exact (proj1 (diagnostics_only_when_verbose Sim.platform s) SEED_FILE 64 eq_refl).
  - apply (proj2 (proj2 (diagnostics_only_when_verbose Sim.platform s)) SEED_FILE).
    + reflexivity.
    + reflexivity.
    + vm_compute. discriminate.
Defined.

(** X5 and X7 on the 64-byte seed file. *)
Lemma seed_file_used_only_if_valid_witness :
  let s := start Sim.platform Sim.good_seed in
  SEED_FILE = SEED_FILE
  /\ access Sim.platform SEED_FILE (Z.lor R_OK W_OK) (ps_world s) = 0
  /\ exists seed_stat,
      lstat Sim.platform SEED_FILE (ps_world s) = Some seed_stat
      /\ S_ISREG (st_mode seed_stat) = true
      /\ ENTROPY_SIZE <= st_size seed_stat
      /\ 64 = to_int (st_size seed_stat).
Proof.
  intros s.
  apply (seed_file_used_only_if_valid Sim.platform SEED_FILE s SEED_FILE 64).
  - reflexivity.
  - discriminate.
Defined.

Lemma read_size_at_least_minimum_witness : ENTROPY_SIZE <= 64.
Proof.
  apply (read_size_at_least_minimum Sim.platform SEED_FILE
           (start Sim.platform Sim.good_seed) SEED_FILE 64).
  - intros seed_stat H. vm_compute in H. injection H as <-. vm_compute. discriminate.
  - reflexivity.
Defined.

(** X8 on a seeded generator and a buffer of eight cells. *)
Lemma get_rand_fills_buffer_witness :
  let w := snd (Sim.sim_load SEED_FILE 64 Sim.good_seed) in
  let dest := repeat x00 8 in
  let bs := [x00; x01; x7f; x80] in
  exists buffer,
    fst (get_rand Sim.platform dest 4 (start Sim.platform w)) = Returned (Some buffer)
    /\ List.length buffer = List.length dest
    /\ firstn (List.length bs) buffer = bs
    /\ skipn (List.length bs) buffer = skipn (List.length bs) dest.
Proof.
  intros w dest bs.
  apply (get_rand_fills_buffer Sim.platform dest 4 (start Sim.platform w) bs).
  - reflexivity.
  - reflexivity.
  - reflexivity.
  - vm_compute. discriminate.
  - vm_compute. lia.
Defined.

(** X9 on a generator that has not been seeded and on a seed file that
    cannot be written. *)
Lemma failures_always_reported_witness :
  (let s := start Sim.platform Sim.good_seed in
   fst (get_rand Sim.platform (repeat x00 8) 4 s) = Returned None
   /\ last (ps_log (snd (get_rand Sim.platform (repeat x00 8) 4 s))) (EvStdout [])
      = EvStderr ("RAND_bytes failed: error" ++ nl))
  /\ (let s := start Sim.platform (Sim.unwritable Sim.good_seed) in
      fst (seed_save Sim.platform SEED_FILE s) = Returned 1
      /\ last (ps_log (snd (seed_save Sim.platform SEED_FILE s))) (EvStdout [])
         = EvStderr ("RAND_write_file failed: error" ++ nl)).
Proof.
  split; intros s.
  - apply (proj1 (proj2 (failures_always_reported Sim.platform s)) (repeat x00 8) 4).
    vm_compute. discriminate.
  - apply (proj2 (proj2 (failures_always_reported Sim.platform s)) SEED_FILE).
    + reflexivity.
    + reflexivity.
Defined.

(** X12 on a command line without operand. *)
Lemma args_parse_exit_prints_usage_witness :
  let s := start Sim.platform Sim.good_seed in
  last (ps_log (snd (args_parse Sim.platform ["rand"] s))) (EvStdout [])
  = usage_line "rand".
Proof.
  intros s.
  apply (args_parse_exit_prints_usage Sim.platform ["rand"] s EXIT_FAILURE).
  reflexivity.
Defined.



(** X16 on a hex run of sixteen bytes. *)
Lemma run_reaches_selection_witness :
  let r := run Sim.platform ["rand"; "-x"; "16"] Sim.good_seed in
  ps_args (snd r) = mk_args true false 16
  /\ exists rest,
      calls_of (ps_log (snd r)) = CAccess SEED_FILE 6 0 :: rest.
Proof.
  apply (run_reaches_selection Sim.platform ["rand"; "-x"; "16"] Sim.good_seed).
  - reflexivity.
  - reflexivity.
  - vm_compute. split; discriminate.
Defined.

(** X18 on a raw run of four bytes. *)
Lemma output_is_generator_bytes_witness :
  let r := run Sim.platform ["rand"; "4"] Sim.good_seed in
  fst r = Exited EXIT_SUCCESS
  /\ ps_args (snd r) = mk_args false false 4
  /\ stdout_of (ps_log (snd r)) = [x00; x01; x7f; x80].
Proof.
  apply (output_is_generator_bytes Sim.platform ["rand"; "4"] Sim.good_seed
           SEED_FILE 64 [x00; x01; x7f; x80]).
  - reflexivity.
  - reflexivity.
  - vm_compute. split; discriminate.
  - reflexivity.
  - reflexivity.
  - reflexivity.
  - reflexivity.
  - reflexivity.
Defined.

(** X19 on the 64-byte seed file. *)
Lemma valid_seed_file_is_read_whole_witness :
  let s := start Sim.platform Sim.good_seed in
  let r := seed_select Sim.platform SEED_FILE s in
  fst r = Returned (Some (SEED_FILE, 64))
  /\ ps_world (snd r) = ps_world s
  /\ exists l, ps_log (snd r) = ps_log s ++ l /\ unlinked l = [].
Proof.
  intros s.
  apply (valid_seed_file_is_read_whole Sim.platform SEED_FILE s
           (mk_stat (Z.lor S_IFREG 384) 64)).
  - reflexivity.
  - reflexivity.
  - reflexivity.
  - vm_compute. split; discriminate.
Defined.

(** X20 on a verbose and a quiet state over the same world. *)
Lemma verbosity_is_not_observable_witness :
  let s := mk_pstate Sim.platform Sim.good_seed (mk_args true true 4) [] in
  let s' := mk_pstate Sim.platform Sim.good_seed (mk_args true false 4) [] in
  fst (main_core Sim.platform s) = fst (main_core Sim.platform s')
  /\ same_observables Sim.platform (snd (main_core Sim.platform s))
                                   (snd (main_core Sim.platform s')).
Proof.
  intros s s'. apply (verbosity_is_not_observable Sim.platform s s').
  repeat split.
Defined.
